(** * yolo: release aggregation and access control

  A shallow embedding of the two Go packages of the repository,
  [server] (src/server/server.go: build cache synchronisation, token
  middleware) and [yolosvc] (build listing, artifact download), with
  the properties of their specification stated and proved over it.

  Layout: the first half holds the definitions, one module per Go
  package; the second half holds the lemmas and theorems. *)

From Stdlib Require Import ZArith String Ascii List Lia Permutation.
From stdpp Require Import gmap list strings fin_maps pretty.

Local Open Scope Z_scope.

(** Go's [error] values are compared by the claims only through their
  message, so an error is its message. *)
Definition error := string.

(** A Go call returning [(value, error)]. *)
Inductive fallible (A : Type) : Type :=
| Ok (a : A)
| Err (e : error).
Arguments Ok {A} a.
Arguments Err {A} e.

(** ** Package [time] (standard library; the part the code uses)

  A [time.Time] is its instant, counted from the zero time
  (January 1, year 1, 00:00:00 UTC); instants before it are negative.
  [IsZero] and [After] compare instants only. *)
Module time.
Definition Time := Z.
Definition zero : Time := 0.
Definition IsZero (t : Time) : bool := t =? 0.
Definition After (t u : Time) : bool := u <? t.
End time.

(** ** Package [circleci] (github.com/jszwedko/go-circleci)

  Only the fields of [circleci.Build] that server.go reads are kept
  apart; [Status] stands for the payload carried along. The client
  decodes every record of a page into a build of its own, so a page is
  a list of builds (no nil pointer among them) and a build, never
  written after it was decoded, is held by value. *)
Module circleci.
Record Build := {
  BuildNum : Z;
  StartTime : option time.Time;
  StopTime : option time.Time;
  Status : string
}.

(** [Client.Builds(account, repo, limit, offset)]: the upstream is a
    function of the limit and the offset; within one cycle every
    offset is requested at most once, so this covers every sequence of
    answers. *)
Definition Client := Z -> Z -> fallible (list Build).
End circleci.

(** ** Package [crypto/md5] (standard library)

    [md5.Sum] after RFC 1321, on bytes held as integers in [0, 256);
    words are integers in [0, 2^32) with the wrap-around written out. *)
Module md5.
Definition add32 (a b : Z) : Z := (a + b) mod 2 ^ 32.
Definition not32 (a : Z) : Z := Z.lxor a 0xffffffff.
Definition rotl32 (x c : Z) : Z :=
  Z.lor (Z.shiftl x c mod 2 ^ 32) (Z.shiftr x (32 - c)).

Definition shifts : list Z :=
  [7; 12; 17; 22; 7; 12; 17; 22; 7; 12; 17; 22; 7; 12; 17; 22;
   5; 9; 14; 20; 5; 9; 14; 20; 5; 9; 14; 20; 5; 9; 14; 20;
   4; 11; 16; 23; 4; 11; 16; 23; 4; 11; 16; 23; 4; 11; 16; 23;
   6; 10; 15; 21; 6; 10; 15; 21; 6; 10; 15; 21; 6; 10; 15; 21].

Definition table : list Z :=
  [0xd76aa478; 0xe8c7b756; 0x242070db; 0xc1bdceee;
   0xf57c0faf; 0x4787c62a; 0xa8304613; 0xfd469501;
   0x698098d8; 0x8b44f7af; 0xffff5bb1; 0x895cd7be;
   0x6b901122; 0xfd987193; 0xa679438e; 0x49b40821;
   0xf61e2562; 0xc040b340; 0x265e5a51; 0xe9b6c7aa;
   0xd62f105d; 0x02441453; 0xd8a1e681; 0xe7d3fbc8;
   0x21e1cde6; 0xc33707d6; 0xf4d50d87; 0x455a14ed;
   0xa9e3e905; 0xfcefa3f8; 0x676f02d9; 0x8d2a4c8a;
   0xfffa3942; 0x8771f681; 0x6d9d6122; 0xfde5380c;
   0xa4beea44; 0x4bdecfa9; 0xf6bb4b60; 0xbebfbc70;
   0x289b7ec6; 0xeaa127fa; 0xd4ef3085; 0x04881d05;
   0xd9d4d039; 0xe6db99e5; 0x1fa27cf8; 0xc4ac5665;
   0xf4292244; 0x432aff97; 0xab9423a7; 0xfc93a039;
   0x655b59c3; 0x8f0ccc92; 0xffeff47d; 0x85845dd1;
   0x6fa87e4f; 0xfe2ce6e0; 0xa3014314; 0x4e0811a1;
   0xf7537e82; 0xbd3af235; 0x2ad7d2bb; 0xeb86d391].

(** The four chaining words. *)
Record digest := { dA : Z; dB : Z; dC : Z; dD : Z }.

Definition init : digest :=
  {| dA := 0x67452301; dB := 0xefcdab89; dC := 0x98badcfe; dD := 0x10325476 |}.

(** Step [i] of the 64 steps on the 16 words [m] of a block. *)
Definition step (m : list Z) (s : digest) (i : nat) : digest :=
  let j := Z.of_nat i in
  let '(f, g) :=
    if j <? 16 then
      (Z.lor (Z.land (dB s) (dC s)) (Z.land (not32 (dB s)) (dD s)), j)
    else if j <? 32 then
      (Z.lor (Z.land (dD s) (dB s)) (Z.land (not32 (dD s)) (dC s)),
       (5 * j + 1) mod 16)
    else if j <? 48 then
      (Z.lxor (dB s) (Z.lxor (dC s) (dD s)), (3 * j + 5) mod 16)
    else
      (Z.lxor (dC s) (Z.lor (dB s) (not32 (dD s))), (7 * j) mod 16) in
  let x := add32 (add32 (add32 f (dA s)) (nth i table 0))
                 (nth (Z.to_nat g) m 0) in
  {| dA := dD s; dB := add32 (dB s) (rotl32 x (nth i shifts 0));
     dC := dB s; dD := dC s |}.

(** Little-endian words of a block, and bytes of a word. *)
Fixpoint words (bs : list Z) : list Z :=
  match bs with
  | b0 :: b1 :: b2 :: b3 :: rest =>
      (b0 + 256 * b1 + 65536 * b2 + 16777216 * b3) :: words rest
  | _ => []
  end.
Definition word_bytes (x : Z) : list Z :=
  [x mod 256; (x / 256) mod 256; (x / 65536) mod 256; (x / 16777216) mod 256].

Definition block (s : digest) (bs : list Z) : digest :=
  let r := foldl (step (words bs)) s (seq 0 64) in
  {| dA := add32 (dA s) (dA r); dB := add32 (dB s) (dB r);
     dC := add32 (dC s) (dC r); dD := add32 (dD s) (dD r) |}.

(** The message followed by 0x80, zeros up to 56 modulo 64, and its
    length in bits on eight little-endian bytes. *)
Definition pad (msg : list Z) : list Z :=
  let n := Z.of_nat (length msg) in
  let zeros := Z.to_nat ((55 - n) mod 64) in
  let bits := (8 * n) mod 2 ^ 64 in
  msg ++ [0x80] ++ repeat 0 zeros
      ++ word_bytes (bits mod 2 ^ 32) ++ word_bytes (bits / 2 ^ 32).

Fixpoint blocks (n : nat) (s : digest) (bs : list Z) : digest :=
  match n with
  | O => s
  | S n' => blocks n' (block s (take 64 bs)) (drop 64 bs)
  end.

(** [md5.Sum(data)]: the sixteen bytes of the digest. *)
Definition Sum (data : list Z) : list Z :=
  let p := pad data in
  let s := blocks (length p / 64)%nat init p in
  word_bytes (dA s) ++ word_bytes (dB s) ++ word_bytes (dC s) ++ word_bytes (dD s).
End md5.

(** ** Package [fmt] (standard library; the verbs the code uses) *)
Module fmt.
Definition bytes_of_string (s : string) : list Z :=
  map (fun c => Z.of_N (N_of_ascii c)) (list_ascii_of_string s).

Definition hexdigit (d : Z) : ascii :=
  nth (Z.to_nat d) (list_ascii_of_string "0123456789abcdef") "0"%char.

(** ["%x"] of a byte array: two lower-case digits per byte. *)
Fixpoint hex (bs : list Z) : string :=
  match bs with
  | [] => EmptyString
  | b :: rest => String (hexdigit (b / 16)) (String (hexdigit (b mod 16)) (hex rest))
  end.
End fmt.

(** ** Package [math/rand] (standard library)

    The global source is the sequence of raw values it yields and the
    number of values drawn so far; [Intn n] reduces the next raw value
    into [0, n). For a fixed bound every behaviour of [Intn] is that of
    some sequence. *)
Module rand.
Record Source := { raw : nat -> Z; drawn : nat }.

Definition Intn (n : Z) (r : Source) : Z * Source :=
  (raw r (drawn r) mod n, {| raw := raw r; drawn := S (drawn r) |}).
End rand.

(** ** Package [echo] (github.com/labstack/echo; the part the code uses) *)
Module echo.
(** A handler's [error]: an [*echo.HTTPError] or any other error. *)
Inductive Error :=
| HTTPError (code : Z) (message : string)
| OtherError (message : string).

(** [c.Path()] is the path of the registered route that matched the
    request; [c.Param(name)] the value of a path parameter. *)
Record Context := {
  Path : string;
  Params : list (string * string)
}.

(** [c.Param(name)]: the empty string when there is no such parameter. *)
Fixpoint lookup_param (name : string) (ps : list (string * string)) : string :=
  match ps with
  | [] => EmptyString
  | (k, v) :: rest => if String.eqb k name then v else lookup_param name rest
  end.
Definition Param (c : Context) (name : string) : string :=
  lookup_param name (Params c).

(** [nil] is [None]. *)
Definition HandlerFunc := Context -> option Error.

Definition StatusUnauthorized : Z := 401.

(** [echo.NewHTTPError(code)]: the message is the status text. *)
Definition NewHTTPError (code : Z) : Error :=
  HTTPError code (if code =? 401 then "Unauthorized" else EmptyString).
End echo.

(** ** Package [regexp] (standard library)

    A compiled expression is its [MatchString]. *)
Module regexp.
Definition Regexp := string -> bool.

Fixpoint strip_prefix (p s : string) : option string :=
  match p, s with
  | EmptyString, _ => Some s
  | String a p', String b s' => if Ascii.eqb a b then strip_prefix p' s' else None
  | String _ _, EmptyString => None
  end.

Fixpoint no_newline (s : string) : bool :=
  match s with
  | EmptyString => true
  | String c s' => negb (Ascii.eqb c "010"%char) && no_newline s'
  end.

(** [^p.+$] for a literal [p]: the text is [p] followed by one or more
    characters, none of them a newline ([.] does not match a newline
    and, without the flag m, [$] matches at the end of the text only). *)
Definition literal_then_some (p : string) : Regexp :=
  fun s =>
    match strip_prefix p s with
    | Some rest => negb (String.eqb rest EmptyString) && no_newline rest
    | None => false
    end.

(** [r1|r2|...] *)
Definition alternation (rs : list Regexp) : Regexp :=
  fun s => existsb (fun r => r s) rs.
End regexp.

(** ** Package [server]: the build cache and the token gate *)
Module server.
Import circleci.

(** Go maps are references: the heap holds the map objects, a
    [buildMap] value is the address of one, [None] being the nil map. *)
Definition loc := positive.
Abbreviation BuildTable := (gmap Z Build).
Abbreviation Heap := (gmap loc (gmap Z Build)).
Definition buildMap := option loc.

Record Cache := {
  builds : buildMap;
  mostRecentBuild : time.Time
}.

Record Server := {
  addr : string;
  hostname : string;
  hostUrl : string;
  salt : string;
  cache : Cache;
  Debug : bool;
  NoSlack : bool;
  NoGa : bool;
  NoAuth : bool
}.

Definition set_cache (c : Cache) (s : Server) : Server :=
  {| addr := addr s; hostname := hostname s; hostUrl := hostUrl s;
     salt := salt s;
     cache := c; Debug := Debug s; NoSlack := NoSlack s;
     NoGa := NoGa s; NoAuth := NoAuth s |}.

(** What [refreshCache] reads and writes: the server, the heap of map
    objects, and the record of the upstream requests issued so far
    (limit, offset), oldest first. *)
Record World := {
  this : Server;
  heap : Heap;
  requests : list (Z * Z)
}.

Definition with_server (s : Server) (w : World) : World :=
  {| this := s; heap := heap w; requests := requests w |}.
Definition with_heap (h : Heap) (w : World) : World :=
  {| this := this w; heap := h; requests := requests w |}.
Definition with_request (r : Z * Z) (w : World) : World :=
  {| this := this w; heap := heap w; requests := requests w ++ [r] |}.

(** The map a reader of [s.cache.builds] sees; a nil map reads as the
    empty one. *)
Definition deref (h : Heap) (m : buildMap) : gmap Z Build :=
  match m with
  | Some l => default ∅ (h !! l)
  | None => ∅
  end.
Definition published (w : World) : gmap Z Build :=
  deref (heap w) (builds (cache (this w))).

(** [make(buildMap, 0)] *)
Definition make_buildMap (h : Heap) : loc * Heap :=
  let l := fresh (dom h) in (l, <[l := ∅]> h).

(** [m[k] = v]; assignment to an entry of the nil map panics
    ([None]). *)
Definition mapassign (m : buildMap) (b : Build) (h : Heap) : option Heap :=
  match m with
  | Some l =>
      match h !! l with
      | Some o => Some (<[l := <[BuildNum b := b]> o]> h)
      | None => None
      end
  | None => None
  end.

(** What a call of [refreshCache] does: return nil, return an error,
    or panic. *)
Inductive Ret :=
| RetNil
| RetErr (e : error)
| RetPanic.

(** The publication under the mutex inside the cold loop. *)
Definition publish_builds (m : buildMap) (w : World) : World :=
  with_server
    (set_cache {| builds := m;
                  mostRecentBuild := mostRecentBuild (cache (this w)) |}
               (this w)) w.

(** The two assignments at the end of [refreshCache]. *)
Definition publish (m : buildMap) (t : time.Time) (w : World) : World :=
  with_server (set_cache {| builds := m; mostRecentBuild := t |} (this w)) w.

(** First loop of a cold page: the running cursor moves to a stop time
    that is after it. *)
Definition advance (mrb : time.Time) (b : Build) : time.Time :=
  match StopTime b with
  | Some t => if time.After t mrb then t else mrb
  | None => mrb
  end.

(** Second loop of a cold page: [allBuilds[build.BuildNum] = build]. *)
Fixpoint record_all (m : buildMap) (bs : list Build) (h : Heap) : option Heap :=
  match bs with
  | [] => Some h
  | b :: bs' =>
      match mapassign m b h with
      | Some h' => record_all m bs' h'
      | None => None
      end
  end.

(** How one iteration of the cold loop ends. *)
Inductive Flow :=
| Continue
| Break
| Return (r : Ret).

(** The local variables [allBuilds] and [mostRecentBuild]. *)
Record Locals := {
  allBuilds : buildMap;
  mrb : time.Time
}.

(** Body of [for page := 0; page < 20; page++]. *)
Definition coldPage (cc : Client) (page : Z) (w : World) (lv : Locals)
  : Flow * World * Locals :=
  let w := with_request (100, page * 100) w in
  match cc 100 (page * 100) with
  | Err e => (Return (RetErr e), w, lv)
  | Ok bs =>
      let t := foldl advance (mrb lv) bs in
      match record_all (allBuilds lv) bs (heap w) with
      | None => (Return RetPanic, w, lv)
      | Some h =>
          let w := with_heap h w in
          let lv := {| allBuilds := allBuilds lv; mrb := t |} in
          if Z.of_nat (length bs) <? 100 then (Break, w, lv)
          else (Continue, publish_builds (allBuilds lv) w, lv)
      end
  end.

(** The cold loop with [n] iterations left, at page [page]: [inl] when
    the function returned from inside the loop, [inr] when the loop was
    left, by [break] or by its condition. *)
Fixpoint coldLoop (cc : Client) (n : nat) (page : Z) (w : World) (lv : Locals)
  : Ret * World + World * Locals :=
  match n with
  | O => inr (w, lv)
  | S n' =>
      match coldPage cc page w lv with
      | (Return r, w', _) => inl (r, w')
      | (Break, w', lv') => inr (w', lv')
      | (Continue, w', lv') => coldLoop cc n' (page + 1) w' lv'
      end
  end.

(** [updateTime]: the stop time when there is one, else the start
    time; [None] for the records the warm loop skips. *)
Definition updateTime (b : Build) : option time.Time :=
  match StartTime b, StopTime b with
  | None, None => None
  | start, None => start
  | _, Some t => Some t
  end.

(** State of the warm loop: the heap (or a panic), the running cursor,
    the counter [changed]. *)
Record Warm := {
  wheap : option Heap;
  wmrb : time.Time;
  changed : nat
}.

(** Body of [for i := len(builds) - 1; i >= 0; i--]. *)
Definition warmStep (m : buildMap) (previous : time.Time) (a : Warm) (b : Build)
  : Warm :=
  match updateTime b with
  | None => a
  | Some u =>
      let t := if time.After u (wmrb a) then u else wmrb a in
      if time.After u previous then
        {| wheap := h ← wheap a; mapassign m b h;
           wmrb := t; changed := S (changed a) |}
      else
        {| wheap := wheap a; wmrb := t; changed := changed a |}
  end.

Definition warmLoop (m : buildMap) (previous : time.Time) (bs : list Build)
    (h : Heap) : Warm :=
  foldl (warmStep m previous)
        {| wheap := Some h; wmrb := previous; changed := 0 |}
        (rev bs).

(** [refreshCache]. The declarations make a fresh map for [allBuilds]
    and copy the cursor; the warm branch then lets [allBuilds] be the
    cached map itself, which its loop writes in place. The log lines
    are left out. *)
Definition refreshCache (cc : Client) (w : World) : Ret * World :=
  let '(l, h) := make_buildMap (heap w) in
  let w := with_heap h w in
  let mostRecent := mostRecentBuild (cache (this w)) in
  if time.IsZero mostRecent then
    match coldLoop cc 20 0 w {| allBuilds := Some l; mrb := mostRecent |} with
    | inl rw => rw
    | inr (w', lv) => (RetNil, publish (allBuilds lv) (mrb lv) w')
    end
  else
    let m := builds (cache (this w)) in
    let w := with_request (100, 0) w in
    match cc 100 0 with
    | Err e => (RetErr e, w)
    | Ok bs =>
        let a := warmLoop m mostRecent bs (heap w) in
        match wheap a with
        | None => (RetPanic, w)
        | Some h =>
            if (changed a =? 0)%nat then (RetNil, with_heap h w)
            else (RetNil, publish m (wmrb a) (with_heap h w))
        end
    end.

(** *** The token gate *)

(** [fmt.Sprintf("%x", md5.Sum([]byte(id+s.salt)))] *)
Definition getHash (s : Server) (id : string) : string :=
  fmt.hex (md5.Sum (fmt.bytes_of_string (String.append id (salt s)))).

Definition tokenMiddleware (s : Server) (tokenPaths : regexp.Regexp)
    (next : echo.HandlerFunc) : echo.HandlerFunc :=
  fun c =>
    if tokenPaths (echo.Path c) then
      let token := echo.Param c "token" in
      if negb (String.eqb token EmptyString) then
        let h := getHash s (echo.Param c "*") in
        if String.eqb h token then next c
        else Some (echo.NewHTTPError echo.StatusUnauthorized)
      else Some (echo.NewHTTPError echo.StatusUnauthorized)
    else next c.

(** *** Construction *)

Definition letterRunes : list ascii :=
  list_ascii_of_string "abcdefghijklmnopqrstuvwxyzABCDEFGHIJKLMNOPQRSTUVWXYZ".

(** [b[i] = letterRunes[rand.Intn(len(letterRunes))]] for each [i];
    the index is within the slice, [Intn n] being in [0, n). *)
Fixpoint randStringRunes (n : nat) (r : rand.Source) : string * rand.Source :=
  match n with
  | O => (EmptyString, r)
  | S n' =>
      let '(i, r1) := rand.Intn (Z.of_nat (length letterRunes)) r in
      let '(rest, r2) := randStringRunes n' r1 in
      (String (nth (Z.to_nat i) letterRunes "a"%char) rest, r2)
  end.

Record ServerConfig := {
  cfg_Addr : string;
  cfg_Hostname : string;
  cfg_Debug : bool;
  cfg_NoSlack : bool;
  cfg_NoGa : bool;
  cfg_NoAuth : bool;
  cfg_SqlConn : string
}.

(** The expression compiled in [NewServer]:
    [^/auth/ipa/build/.+$|^/auth/dmg/build/.+$|^/auth/apk/build/.+$|^/auth/itms/release/.+$] *)
Definition tokenPaths : regexp.Regexp :=
  regexp.alternation
    [regexp.literal_then_some "/auth/ipa/build/";
     regexp.literal_then_some "/auth/dmg/build/";
     regexp.literal_then_some "/auth/apk/build/";
     regexp.literal_then_some "/auth/itms/release/"].

(** The routes registered on the group [/auth], method and full path. *)
Definition auth_routes : list (string * string) :=
  [("GET", "/auth/build/:build_id");
   ("GET", "/auth/builds/*");
   ("GET", "/auth/artifacts/:build_id");
   ("GET", "/auth/ipa/build/:token/*");
   ("GET", "/auth/dmg/build/:token/*");
   ("GET", "/auth/apk/build/:token/*");
   ("HEAD", "/auth/ipa/build/:token/*");
   ("GET", "/auth/itms/release/:token/*")]%string.

(** The middleware installed on the group: [auth.Use(s.tokenMiddleware(tokenPaths))]. *)
Definition auth_middleware (s : Server) : echo.HandlerFunc -> echo.HandlerFunc :=
  tokenMiddleware s tokenPaths.

(** [NewServer]: the host URL, the salt drawn from the random source,
    and the zero cache. [loadTemplates] and [loadDB] are methods defined
    in other files; what they return is given. The routing set up on
    the echo instance is [auth_routes] and [auth_middleware]. *)
Definition NewServer (cfg : ServerConfig) (loadTemplates loadDB : option error)
    (r : rand.Source) : fallible Server * rand.Source :=
  let hostUrl :=
    if String.prefix "localhost" (cfg_Hostname cfg)
       || String.prefix "127.0.0.1" (cfg_Hostname cfg)
    then String.append "http://" (cfg_Hostname cfg)
    else String.append "https://" (cfg_Hostname cfg) in
  let '(randStr, r') := randStringRunes 10 r in
  let s := {| addr := cfg_Addr cfg; hostname := cfg_Hostname cfg;
              hostUrl := hostUrl; salt := randStr;
              cache := {| builds := None; mostRecentBuild := time.zero |};
              Debug := cfg_Debug cfg; NoSlack := cfg_NoSlack cfg;
              NoGa := cfg_NoGa cfg; NoAuth := cfg_NoAuth cfg |} in
  match loadTemplates with
  | Some e => (Err e, r')
  | None =>
      match loadDB with
      | Some e => (Err e, r')
      | None => (Ok s, r')
      end
  end.
(** *** The sorted view of the cache *)

(** [buildMap.Sorted]: the keys of the map in the order [range] visits
    them, sorted by [sort.Sort(sort.Reverse(sort.IntSlice(keys)))],
    whose [Less(i, j)] is [keys[j] < keys[i]], then the builds under
    them; [m[k]] is nil ([None]) for a key the map does not hold. The
    algorithm of [sort.Sort] and the order of [range] over a map are
    given. *)
Definition Sorted (sort_Sort : (Z -> Z -> bool) -> list Z -> list Z)
    (range : list Z) (h : Heap) (m : buildMap) : list (option Build) :=
  let keys := foldl (fun keys k => keys ++ [k]) [] range in
  let keys := sort_Sort (fun a b => b <? a) keys in
  foldl (fun slice k => slice ++ [deref h m !! k]) [] keys.

(** *** The polling loop *)

(** The loop of the goroutine that [Start] launches, one upstream state
    per iteration: an error of [refreshCache] is logged and the loop
    goes on; a panic ends the process ([None]). *)
Fixpoint Start_loop (ccs : list Client) (w : World) (log : list string)
  : option (World * list string) :=
  match ccs with
  | [] => Some (w, log)
  | cc :: rest =>
      match refreshCache cc w with
      | (RetNil, w') => Start_loop rest w' log
      | (RetErr e, w') =>
          Start_loop rest w' (log ++ [String.append "refresh failed: " e])
      | (RetPanic, _) => None
      end
  end.

(** *** The group checks of the OAuth middleware *)

(** A value of an OAuth profile ([interface{}]), as far as the checks
    tell values apart: a string, a list of values, anything else. *)
#[warnings="-register-all"]
Inductive ProfileValue :=
| PString (s : string)
| PList (l : list ProfileValue)
| POther.

(** [for _, group := range groups { if g, ok := group.(string); ok && g == name { return true } }] *)
Fixpoint hasGroup (name : string) (groups : list ProfileValue) : bool :=
  match groups with
  | [] => false
  | PString g :: rest => if String.eqb g name then true else hasGroup name rest
  | _ :: rest => hasGroup name rest
  end.

(** The function handed to [ProtectMiddleware]; the one of the group
    [release] and the one of [/release/staff] differ in the name only. *)
Definition inGroup (name : string) (profile : gmap string ProfileValue) : bool :=
  match profile !! "https://yolo.berty.io/groups"%string with
  | Some (PList groups) => hasGroup name groups
  | _ => false
  end.
Definition releaseAllowed : gmap string ProfileValue -> bool := inGroup "yolo".
Definition staffAllowed : gmap string ProfileValue -> bool := inGroup "staff".
End server.

(** ** Package [yolopb] (pkg/yolopb of the repository; the types) *)
Module yolopb.
(** The driver tags the code names, and any other value of the enum. *)
Inductive DriverEnum :=
| Driver_Buildkite
| Driver_Bintray
| Driver_CircleCI
| Driver_other (tag : Z).

Record Artifact := {
  ID : string;
  Kind : Z;
  Driver : DriverEnum;
  DownloadURL : string;
  LocalPath : string;
  FileSize : Z;
  MimeType : string;
  SignedURL : string
}.

(** [HasArtifacts] is a slice of pointers: artifacts live in a heap and
    are read through it. *)
Definition ptr := nat.
Definition ArtifactHeap := ptr -> Artifact.

Record Build := {
  BuildID : string;
  CreatedAt : option time.Time;
  HasArtifacts : list ptr
}.

Definition set_HasArtifacts (l : list ptr) (b : Build) : Build :=
  {| BuildID := BuildID b; CreatedAt := CreatedAt b; HasArtifacts := l |}.
End yolopb.

(** ** Package [cayley]: the query paths the code builds *)
Module cayley.
Inductive Value :=
| IRI (s : string)
| Int (n : Z).

Inductive Path :=
| StartPath (nodes : list Value)
| StartMorphism
| Has (p : Path) (pred : Value) (obj : Value)
| HasPath (p : Path) (m : Path)
| In (p : Path) (pred : Value)
| Limit (p : Path) (n : Z).
End cayley.

(** ** Package [sort] (standard library)

    The algorithm behind [sort.Slice] is not part of the repository.
    [BuildList] is parametrised by it; its documented contract is
    [sorts], and [insertionSort], what the library runs on short
    slices, is an instance of it. *)
Module sort.
(** The requirement on [less]: "if both Less(i, j) and Less(j, k) are
    true, then Less(i, k) must be true as well; if both are false, then
    Less(i, k) must be false as well." *)
Definition transitive_ordering {A} (less : A -> A -> bool) : Prop :=
  (forall a b c, less a b = true -> less b c = true -> less a c = true) /\
  (forall a b c, less a b = false -> less b c = false -> less a c = false).

(** No element stands before one that must strictly sort before it. *)
Definition in_order {A} (less : A -> A -> bool) (l : list A) : Prop :=
  forall i j a b, (i < j)%nat -> l !! i = Some a -> l !! j = Some b ->
    less a b = true \/ less b a = false.

Definition sorts {A} (f : (A -> A -> bool) -> list A -> list A) : Prop :=
  forall less l, transitive_ordering less ->
    Permutation l (f less l) /\ in_order less (f less l).

(** [a] may stand before [b]. *)
Definition may_precede {A} (less : A -> A -> bool) (a b : A) : Prop :=
  less a b = true \/ less b a = false.

(** A sorted prefix held last element first. *)
Fixpoint prefix_sorted {A} (less : A -> A -> bool) (r : list A) : Prop :=
  match r with
  | [] => True
  | b :: r' => (forall a, In a r' -> may_precede less a b) /\ prefix_sorted less r'
  end.

(** [for j := i; j > a && less(j, j-1); j-- { swap(j, j-1) }] on the
    sorted prefix held last element first. *)
Fixpoint sink {A} (less : A -> A -> bool) (x : A) (prefix : list A) : list A :=
  match prefix with
  | [] => [x]
  | y :: prefix' => if less x y then y :: sink less x prefix' else x :: prefix
  end.

(** [insertionSort_func] *)
Definition insertionSort {A} (less : A -> A -> bool) (l : list A) : list A :=
  rev (foldl (fun prefix x => sink less x prefix) [] l).
End sort.

(** ** Package [net/http] (standard library): the response writer *)
Module http.
(** The header map, the status line once written, and the body. *)
Record ResponseWriter := {
  Header : list (string * string);
  Status : option Z;
  Body : string
}.

Definition StatusInternalServerError : Z := 500.

(** [w.Header().Add(k, v)] *)
Definition Header_Add (k v : string) (w : ResponseWriter) : ResponseWriter :=
  {| Header := Header w ++ [(k, v)]; Status := Status w; Body := Body w |}.

(** [w.Header().Set(k, v)] *)
Definition Header_Set (k v : string) (w : ResponseWriter) : ResponseWriter :=
  {| Header := List.filter (fun kv => negb (String.eqb (fst kv) k)) (Header w) ++ [(k, v)];
     Status := Status w; Body := Body w |}.

(** [w.WriteHeader(code)]: the first call decides the status. *)
Definition WriteHeader (code : Z) (w : ResponseWriter) : ResponseWriter :=
  {| Header := Header w;
     Status := match Status w with Some c => Some c | None => Some code end;
     Body := Body w |}.

(** [w.Write(p)]: writes the status 200 first when none was written. *)
Definition Write_ (p : string) (w : ResponseWriter) : ResponseWriter :=
  {| Header := Header w;
     Status := match Status w with Some c => Some c | None => Some 200 end;
     Body := String.append (Body w) p |}.

(** [http.Error(w, msg, code)] *)
Definition Error (msg : string) (code : Z) (w : ResponseWriter) : ResponseWriter :=
  Write_ (String.append msg (String "010"%char EmptyString))
    (WriteHeader code
      (Header_Set "X-Content-Type-Options" "nosniff"
        (Header_Set "Content-Type" "text/plain; charset=utf-8" w))).
End http.

(** ** Package [path] (standard library) *)
Module path.
Definition slash : ascii := "/"%char.

Fixpoint strip_slashes (l : list ascii) : list ascii :=
  match l with
  | c :: l' => if Ascii.eqb c slash then strip_slashes l' else l
  | [] => []
  end.

Fixpoint until_slash (l : list ascii) : list ascii :=
  match l with
  | c :: l' => if Ascii.eqb c slash then [] else c :: until_slash l'
  | [] => []
  end.

(** [path.Base]: the last element of the path, trailing slashes
    removed; "." for the empty path, "/" for a path of slashes. *)
Definition Base (p : string) : string :=
  if String.eqb p EmptyString then "."%string
  else
    let last := rev (until_slash (strip_slashes (rev (list_ascii_of_string p)))) in
    match last with
    | [] => "/"%string
    | _ => string_of_list_ascii last
    end.
End path.

(** ** Package [yolosvc] *)
Module yolosvc.
Import yolopb.

(** A download backend streams into the writer and returns its error. *)
Definition Download := string -> http.ResponseWriter -> http.ResponseWriter * option error.

(** The entity store behind [svc.db] and [svc.schema]. *)
Record Store := {
  LoadIteratorToDepth : cayley.Path -> nat -> fallible (ArtifactHeap * list Build);
  LoadPathTo : cayley.Path -> fallible Artifact
}.

(** The fields of [service] the handlers read; [bkc] is the Buildkite
    client ([Artifacts.DownloadArtifactByURL]), [None] when nil. *)
Record service := {
  db : Store;
  bkc : option Download;
  authSalt : string
}.

(** Functions of other packages that the handlers call and that are not
    part of the sources at hand: the methods of [yolopb.Build] and
    [yolopb.Artifact], [sort.Slice] and [bintray.DownloadContent].
    [Build_Cleanup] acts on the local copy of the build and on the
    artifacts in the heap, [Build_AddSignedURLs] on the artifacts. *)
Record Extern := {
  Build_Cleanup : ArtifactHeap -> Build -> ArtifactHeap * Build;
  Build_AddSignedURLs : string -> ArtifactHeap -> Build -> fallible ArtifactHeap;
  Artifact_Cleanup : Artifact -> Artifact;
  sort_Slice : (Build -> Build -> bool) -> list Build -> list Build;
  bintray_DownloadContent : Download
}.

(** The comparison handed to [sort.Slice]; the pointers in
    [resp.Builds] are never nil. *)
Definition less (bi bj : Build) : bool :=
  match CreatedAt bj with
  | None => true
  | Some tj =>
      match CreatedAt bi with
      | None => false
      | Some ti => time.After ti tj
      end
  end.

(** One iteration of the clean-up loop on [builds[idx]]: the new heap
    and the new [builds[idx]]. The compaction writes the kept pointers
    at the front of the copy's slice, which [AddSignedURLs] then walks
    in full. *)
Definition cleanupBuild (X : Extern) (salt : string) (ArtifactKind : Z)
    (h : ArtifactHeap) (b : Build) : fallible (ArtifactHeap * Build) :=
  let '(h1, build) := Build_Cleanup X h b in
  let kept := List.filter (fun p => Kind (h1 p) =? ArtifactKind) (HasArtifacts build) in
  let build' :=
    if 0 <? ArtifactKind
    then set_HasArtifacts (kept ++ drop (length kept) (HasArtifacts build)) build
    else build in
  let b' := if 0 <? ArtifactKind then set_HasArtifacts kept b else b in
  match Build_AddSignedURLs X salt h1 build' with
  | Err _ => Err "sign URLs"%string
  | Ok h2 => Ok (h2, b')
  end.

(** [for idx, build := range builds] *)
Fixpoint cleanupBuilds (X : Extern) (salt : string) (ArtifactKind : Z)
    (h : ArtifactHeap) (bs : list Build) : fallible (ArtifactHeap * list Build) :=
  match bs with
  | [] => Ok (h, [])
  | b :: rest =>
      match cleanupBuild X salt ArtifactKind h b with
      | Err e => Err e
      | Ok (h1, b') =>
          match cleanupBuilds X salt ArtifactKind h1 rest with
          | Err e => Err e
          | Ok (h2, rest') => Ok (h2, b' :: rest')
          end
      end
  end.

(** The path [BuildList] queries. *)
Definition buildsPath (ArtifactKind : Z) : cayley.Path :=
  let p := cayley.Has (cayley.StartPath []) (cayley.IRI "rdf:type") (cayley.IRI "yolo:Build") in
  let p :=
    if 0 <? ArtifactKind then
      cayley.HasPath p
        (cayley.Has (cayley.In cayley.StartMorphism (cayley.IRI "schema:hasBuild"))
                    (cayley.IRI "schema:kind") (cayley.Int ArtifactKind))
    else p in
  cayley.Limit p 300.

(** [BuildList]: the builds of the response, in order, with the heap
    their artifacts are read from. *)
Definition BuildList (X : Extern) (svc : service) (ArtifactKind : Z)
  : fallible (ArtifactHeap * list Build) :=
  match LoadIteratorToDepth (db svc) (buildsPath ArtifactKind) 1 with
  | Err e => Err (String.append "load builds: " e)
  | Ok (h, builds) =>
      match cleanupBuilds X (authSalt svc) ArtifactKind h builds with
      | Err e => Err e
      | Ok (h', builds') => Ok (h', sort_Slice X less builds')
      end
  end.

(** The [switch artifact.Driver] of [ArtifactDownloader]. *)
Definition download (X : Extern) (svc : service) (artifact : Artifact)
    (w : http.ResponseWriter) : http.ResponseWriter * option error :=
  match Driver artifact with
  | Driver_Buildkite =>
      match bkc svc with
      | None => (w, Some "buildkite token required"%string)
      | Some client => client (DownloadURL artifact) w
      end
  | Driver_Bintray => bintray_DownloadContent X (DownloadURL artifact) w
  | _ => (w, Some "download not supported for this driver"%string)
  end.

(** The headers [ArtifactDownloader] adds before the download. *)
Definition downloadHeaders (artifact : Artifact) (w : http.ResponseWriter)
  : http.ResponseWriter :=
  let base := path.Base (LocalPath artifact) in
  let w := http.Header_Add "Content-Disposition"
             (String.append "inline; filename=" base) w in
  let w := if 0 <? FileSize artifact
           then http.Header_Add "Content-Length" (pretty (FileSize artifact)) w
           else w in
  if negb (String.eqb (MimeType artifact) EmptyString)
  then http.Header_Add "Content-Type" (MimeType artifact) w
  else w.

(** The path [ArtifactDownloader] and [PlistGenerator] load. *)
Definition artifactPath (id : string) : cayley.Path :=
  cayley.Has (cayley.StartPath [cayley.IRI id])
             (cayley.IRI "rdf:type") (cayley.IRI "yolo:Artifact").

(** [ArtifactDownloader], [id] being the URL parameter [artifactID]. *)
Definition ArtifactDownloader (X : Extern) (svc : service) (id : string)
    (w : http.ResponseWriter) : http.ResponseWriter :=
  match LoadPathTo (db svc) (artifactPath id) with
  | Err e => http.Error (String.append "err: " e) http.StatusInternalServerError w
  | Ok loaded =>
      let artifact := Artifact_Cleanup X loaded in
      match download X svc artifact (downloadHeaders artifact w) with
      | (w', Some e) => http.Error (String.append "err: " e) http.StatusInternalServerError w'
      | (w', None) => w'
      end
  end.

(** [resp.Builds] of a result of [BuildList]. *)
Definition resp_Builds (r : fallible (ArtifactHeap * list Build)) : fallible (list Build) :=
  match r with
  | Ok (_, builds) => Ok builds
  | Err e => Err e
  end.
(** *** The installer manifest *)

(** What [PlistGenerator] reads of the request: the host and the
    header [X-Forwarded-Proto], empty when absent. *)
Record Request := {
  Host : string;
  XForwardedProto : string
}.

(** [signature.GetSignedURL(method, url, body, key)] and
    [plistgen.Release(bundleID, version, title, url)], of other
    packages. *)
Record PlistExtern := {
  GetSignedURL : string -> string -> string -> string -> fallible string;
  plistgen_Release : string -> string -> string -> string -> fallible string
}.

Definition PlistGenerator (P : PlistExtern) (svc : service) (id : string)
    (r : Request) (w : http.ResponseWriter) : http.ResponseWriter :=
  match LoadPathTo (db svc) (artifactPath id) with
  | Err e => http.Error (String.append "err: " e) http.StatusInternalServerError w
  | Ok _ =>
      let scheme := if String.eqb (XForwardedProto r) EmptyString
                    then "http"%string else XForwardedProto r in
      let baseURL := String.append scheme (String.append "://" (Host r)) in
      let url := String.append "/api/artifact-dl/" id in
      match GetSignedURL P "GET" url EmptyString (authSalt svc) with
      | Err e => http.Error (String.append "err: " e) http.StatusInternalServerError w
      | Ok url =>
          let url := String.append baseURL url in
          match plistgen_Release P "tech.berty.ios" "v0.0.1" "YOLO" url with
          | Err e =>
              http.Error (String.append "err: " e) http.StatusInternalServerError w
          | Ok b => http.Write_ b (http.Header_Add "Content-Type" "application/x-plist" w)
          end
      end
  end.
End yolosvc.

(** ** Notions the statements use *)
Module spec.
Import circleci.

(** The map after [allBuilds[b.BuildNum] = b] for each [b] of [bs] in
    turn. *)
Definition merge (bs : list Build) (m : gmap Z Build) : gmap Z Build :=
  foldl (fun m b => <[BuildNum b := b]> m) m bs.

(** The records of the pages [page], ..., [page + k - 1] of the
    upstream, in the order fetched, and the requests that fetch them. *)
Fixpoint fetched (cc : Client) (page : Z) (k : nat) : list Build :=
  match k with
  | O => []
  | S k' =>
      match cc 100 (page * 100) with
      | Ok bs => bs
      | Err _ => []
      end ++ fetched cc (page + 1) k'
  end.

Fixpoint offsets (page : Z) (k : nat) : list (Z * Z) :=
  match k with
  | O => []
  | S k' => (100, page * 100) :: offsets (page + 1) k'
  end.

(** Page [page] of the upstream holds at least, resp. fewer than, 100
    records. *)
Definition full_page (cc : Client) (page : Z) : Prop :=
  exists bs, cc 100 (page * 100) = Ok bs /\ (100 <= length bs)%nat.
Definition short_page (cc : Client) (page : Z) : Prop :=
  exists bs, cc 100 (page * 100) = Ok bs /\ (length bs < 100)%nat.

(** The world and the locals after [j] full pages from [page] on, the
    map at [l] holding [o] before them. *)
Definition after_pages (cc : Client) (l : server.loc) (o : gmap Z Build) (page : Z)
    (j : nat) (w : server.World) (lv : server.Locals)
    (w' : server.World) (lv' : server.Locals) : Prop :=
  server.this w' =
    match j with
    | O => server.this w
    | S _ =>
        server.set_cache
          {| server.builds := Some l;
             server.mostRecentBuild :=
               server.mostRecentBuild (server.cache (server.this w)) |}
          (server.this w)
    end /\
  server.heap w' = <[l := merge (fetched cc page j) o]> (server.heap w) /\
  server.requests w' = server.requests w ++ offsets page j /\
  lv' = {| server.allBuilds := Some l;
           server.mrb := foldl server.advance (server.mrb lv) (fetched cc page j) |}.

(** A cold cycle fetches exactly [n] pages: full pages up to a short
    one, or the twenty pages of the bound, all full. *)
Definition cold_pages (cc : Client) (n : nat) : Prop :=
  (exists k, n = S k /\ (k < 20)%nat /\
     (forall i, (i < k)%nat -> full_page cc (Z.of_nat i)) /\
     short_page cc (Z.of_nat k)) \/
  (n = 20%nat /\ forall i, (i < 20)%nat -> full_page cc (Z.of_nat i)).

(** A record of the warm page counts as changed: its update time is
    after the previous cursor. *)
Definition newer (previous : time.Time) (b : Build) : bool :=
  match server.updateTime b with
  | Some u => time.After u previous
  | None => false
  end.

(** The running cursor of the warm loop after a record. *)
Definition bump (t : time.Time) (b : Build) : time.Time :=
  match server.updateTime b with
  | Some u => if time.After u t then u else t
  | None => t
  end.

(** [t] is the greatest of the times [f] gives on [bs]: none is after
    it, and it is one of them unless none is after [t0]. *)
Definition greatest (f : Build -> option time.Time) (bs : list Build)
    (t0 t : time.Time) : Prop :=
  (forall b u, b ∈ bs -> f b = Some u -> u <= t) /\
  (t = t0 \/ exists b, b ∈ bs /\ f b = Some t).

(** [Build.Cleanup] and [Build.AddSignedURLs] leave the kind of every
    artifact as it is. *)
Definition keeps_kinds (X : yolosvc.Extern) : Prop :=
  (forall h b p,
     yolopb.Kind (fst (yolosvc.Build_Cleanup X h b) p) = yolopb.Kind (h p)) /\
  (forall salt h b h',
     yolosvc.Build_AddSignedURLs X salt h b = Ok h' ->
     forall p, yolopb.Kind (h' p) = yolopb.Kind (h p)).

(** The server state a running process can be in: a cursor that is set
    comes with a map that was made. *)
Definition reachable (w : server.World) : Prop :=
  time.IsZero (server.mostRecentBuild (server.cache (server.this w))) = false ->
  exists l o, server.builds (server.cache (server.this w)) = Some l /\
              server.heap w !! l = Some o.
(** Every build of the map is held under its own build number. *)
Definition keyed (m : gmap Z Build) : Prop :=
  forall k b, m !! k = Some b -> BuildNum b = k.

(** The characters of ["%x"]. *)
Definition hexdigits : list ascii := list_ascii_of_string "0123456789abcdef".
End spec.

(** ** Concrete inputs *)
Module examples.
Import circleci.

(** Build [n], started at [1000 + n] and stopped at [2000 + n]. *)
Definition finished (n : Z) : Build :=
  {| BuildNum := n; StartTime := Some (1000 + n); StopTime := Some (2000 + n);
     Status := "success" |}.

(** [count] finished builds numbered from [from] on. *)
Definition page (from : Z) (count : nat) : list Build :=
  map (fun i => finished (from + Z.of_nat i)) (seq 0 count).

(** An upstream holding 240 builds. *)
Definition upstream240 : Client := fun limit offset =>
  if offset =? 0 then Ok (page 0 100)
  else if offset =? 100 then Ok (page 100 100)
  else if offset =? 200 then Ok (page 200 40)
  else Ok [].

(** An upstream that answers the first request and fails afterwards. *)
Definition upstream_failing : Client := fun limit offset =>
  if offset =? 0 then Ok (page 0 100) else Err "upstream unavailable".

(** An upstream that always fails. *)
Definition upstream_down : Client := fun limit offset => Err "upstream unavailable".

Definition server0 : server.Server :=
  {| server.addr := ":3670"; server.hostname := "localhost:3670";
     server.hostUrl := "http://localhost:3670"; server.salt := "abcdefghij";
     server.cache := {| server.builds := None; server.mostRecentBuild := time.zero |};
     server.Debug := false; server.NoSlack := true; server.NoGa := true;
     server.NoAuth := false |}.

(** The world of a process that has just started. *)
Definition world0 : server.World :=
  {| server.this := server0; server.heap := ∅; server.requests := [] |}.

(** A warm world: builds 1 and 2 cached, cursor at the stop time of
    build 2. *)
Definition warm_world : server.World :=
  {| server.this :=
       server.set_cache {| server.builds := Some 1%positive;
                           server.mostRecentBuild := 2002 |} server0;
     server.heap := {[ 1%positive := spec.merge [finished 1; finished 2] ∅ ]};
     server.requests := [] |}.

(** The latest page of an upstream seen from [warm_world]: build 3 is
    new, build 2 is known, build 4 is queued with no time yet. *)
Definition queued (n : Z) : Build :=
  {| BuildNum := n; StartTime := None; StopTime := None; Status := "queued" |}.
Definition upstream_warm : Client := fun limit offset =>
  Ok [queued 4; finished 3; finished 2].

(** The server built from [config0] and [source1], and the source
    after its ten draws. *)
Definition server1 : server.Server :=
  {| server.addr := ":3670"; server.hostname := "localhost:3670";
     server.hostUrl := "http://localhost:3670"; server.salt := "dkryFMTaho";
     server.cache := {| server.builds := None; server.mostRecentBuild := time.zero |};
     server.Debug := false; server.NoSlack := true; server.NoGa := true;
     server.NoAuth := false |}.

(** A random source, and the configuration of a local server. *)
Definition source1 : rand.Source := {| rand.raw := fun i => 7 * Z.of_nat i + 3; rand.drawn := O |}.
Definition config0 : server.ServerConfig :=
  {| server.cfg_Addr := ":3670"; server.cfg_Hostname := "localhost:3670";
     server.cfg_Debug := false; server.cfg_NoSlack := true; server.cfg_NoGa := true;
     server.cfg_NoAuth := false; server.cfg_SqlConn := "" |}.

Definition source1_after : rand.Source :=
  {| rand.raw := rand.raw source1; rand.drawn := 10 |}.

(** The source of a restarted process that draws the same letters. *)
Definition source2 : rand.Source :=
  {| rand.raw := fun i => 7 * Z.of_nat i + 3 + 52 * (Z.of_nat i + 1); rand.drawn := O |}.
Definition source2_after : rand.Source :=
  {| rand.raw := rand.raw source2; rand.drawn := 10 |}.

(** The restarted process: debugging switched on, the same letters
    drawn. *)
Definition config_restart : server.ServerConfig :=
  {| server.cfg_Addr := ":3670"; server.cfg_Hostname := "localhost:3670";
     server.cfg_Debug := true; server.cfg_NoSlack := true; server.cfg_NoGa := true;
     server.cfg_NoAuth := false; server.cfg_SqlConn := "" |}.
Definition server_restarted : server.Server :=
  {| server.addr := ":3670"; server.hostname := "localhost:3670";
     server.hostUrl := "http://localhost:3670"; server.salt := "dkryFMTaho";
     server.cache := {| server.builds := None; server.mostRecentBuild := time.zero |};
     server.Debug := true; server.NoSlack := true; server.NoGa := true;
     server.NoAuth := false |}.

(** A request for an IPA on the route [/auth/ipa/build/:token/*]. *)
Definition ipa_request (token rest : string) : echo.Context :=
  {| echo.Path := "/auth/ipa/build/:token/*";
     echo.Params := [("token", token); ("*", rest)]%string |}.

(** A handler that always returns nil. *)
Definition serve : echo.HandlerFunc := fun _ => None.

(** *** A store of three builds *)

(** Artifact [p] of the heap: kinds 1 (IPA), 2 (APK) and 1, from
    Buildkite, Bintray and CircleCI. *)
Definition artifact_at (p : yolopb.ptr) : yolopb.Artifact :=
  {| yolopb.ID := String.append "artifact-" (pretty p);
     yolopb.Kind := match p with 1%nat => 2 | _ => 1 end;
     yolopb.Driver := match p with
                      | O => yolopb.Driver_Buildkite
                      | 1%nat => yolopb.Driver_Bintray
                      | _ => yolopb.Driver_CircleCI
                      end;
     yolopb.DownloadURL := String.append "https://ci.example/artifacts/" (pretty p);
     yolopb.LocalPath := "build/out/app.ipa";
     yolopb.FileSize := 1024;
     yolopb.MimeType := "application/octet-stream";
     yolopb.SignedURL := "" |}.

Definition build_undated : yolopb.Build :=
  {| yolopb.BuildID := "build-a"; yolopb.CreatedAt := None;
     yolopb.HasArtifacts := [0%nat; 1%nat] |}.
Definition build_old : yolopb.Build :=
  {| yolopb.BuildID := "build-b"; yolopb.CreatedAt := Some 5000;
     yolopb.HasArtifacts := [2%nat] |}.
Definition build_new : yolopb.Build :=
  {| yolopb.BuildID := "build-c"; yolopb.CreatedAt := Some 6000;
     yolopb.HasArtifacts := [1%nat; 3%nat] |}.

Definition store0 : yolosvc.Store :=
  {| yolosvc.LoadIteratorToDepth := fun _ _ =>
       Ok (artifact_at, [build_undated; build_old; build_new]);
     yolosvc.LoadPathTo := fun _ => Ok (artifact_at 0%nat) |}.

(** A backend that streams the bytes "IPA", one that streams nothing
    (an artifact of no bytes); both return nil. *)
Definition backend_ipa : yolosvc.Download := fun _ w => (http.Write_ "IPA" w, None).
Definition backend_empty : yolosvc.Download := fun _ w => (w, None).

Definition sign (salt : string) (a : yolopb.Artifact) : yolopb.Artifact :=
  {| yolopb.ID := yolopb.ID a; yolopb.Kind := yolopb.Kind a;
     yolopb.Driver := yolopb.Driver a; yolopb.DownloadURL := yolopb.DownloadURL a;
     yolopb.LocalPath := yolopb.LocalPath a; yolopb.FileSize := yolopb.FileSize a;
     yolopb.MimeType := yolopb.MimeType a;
     yolopb.SignedURL := String.append "/api/artifact-dl/" (yolopb.ID a) |}.

(** The collaborators: a clean-up that changes nothing, a signer that
    fills [SignedURL], the library's insertion sort. *)
Definition extern0 : yolosvc.Extern :=
  {| yolosvc.Build_Cleanup := fun h b => (h, b);
     yolosvc.Build_AddSignedURLs := fun salt h b =>
       Ok (fun p => if bool_decide (p ∈ yolopb.HasArtifacts b) then sign salt (h p) else h p);
     yolosvc.Artifact_Cleanup := fun a => a;
     yolosvc.sort_Slice := sort.insertionSort;
     yolosvc.bintray_DownloadContent := backend_ipa |}.

Definition service0 : yolosvc.service :=
  {| yolosvc.db := store0; yolosvc.bkc := Some backend_empty;
     yolosvc.authSalt := "secret" |}.

Definition writer0 : http.ResponseWriter :=
  {| http.Header := []; http.Status := None; http.Body := "" |}.
(** *** More inputs *)

(** A state that no process reaches: the cursor set, the map nil. *)
Definition torn_world : server.World :=
  {| server.this :=
       server.set_cache {| server.builds := None;
                           server.mostRecentBuild := 2002 |} server0;
     server.heap := ∅;
     server.requests := [] |}.

(** Build [n], started at [1000 + n] and still running. *)
Definition running (n : Z) : Build :=
  {| BuildNum := n; StartTime := Some (1000 + n); StopTime := None;
     Status := "running" |}.

(** An upstream whose only page holds two running builds. *)
Definition upstream_running : Client := fun limit offset =>
  if offset =? 0 then Ok [running 2; running 1] else Ok [].

(** An upstream whose pages overlap: a build was added between the
    first and the second request, so build 99 closes the first page and
    opens the second. Pages of 100, 100 and 40 records, 239 builds. *)
Definition upstream_shifted : Client := fun limit offset =>
  if offset =? 0 then Ok (page 0 100)
  else if offset =? 100 then Ok (page 99 100)
  else if offset =? 200 then Ok (page 199 40)
  else Ok [].

(** A cold world that holds a published map: the state after a cold
    cycle that found running builds only. *)
Definition idle_world : server.World :=
  {| server.this :=
       server.set_cache {| server.builds := Some 1%positive;
                           server.mostRecentBuild := time.zero |} server0;
     server.heap := {[ 1%positive := spec.merge [running 2; running 1] ∅ ]};
     server.requests := [] |}.

(** The profile of a member of the group staff. *)
Definition staff_profile : gmap string server.ProfileValue :=
  {[ "https://yolo.berty.io/groups"%string :=
       server.PList [server.POther; server.PString "staff"] ]}.

(** A signer that appends the key, a generator that wraps the link. *)
Definition plist_extern0 : yolosvc.PlistExtern :=
  {| yolosvc.GetSignedURL := fun method url body key =>
       Ok (String.append url (String.append "?signature=" key));
     yolosvc.plistgen_Release := fun bundleID version title url =>
       Ok (String.append "<plist>" (String.append url "</plist>")) |}.

Definition request0 : yolosvc.Request :=
  {| yolosvc.Host := "yolo.example"; yolosvc.XForwardedProto := "https" |}.

(** A request for a disk image on the route [/auth/dmg/build/:token/*]. *)
Definition dmg_request (token rest : string) : echo.Context :=
  {| echo.Path := "/auth/dmg/build/:token/*";
     echo.Params := [("token", token); ("*", rest)]%string |}.
End examples.

(** * Properties of the build cache *)
Module sync_facts.
Import circleci server spec.

Lemma record_all_merge l bs : forall (h : gmap loc (gmap Z Build)) o,
  h !! l = Some o ->
  record_all (Some l) bs h = Some (<[l := merge bs o]> h).
Proof.
  induction bs as [|b bs IH]; intros h o Hl; simpl.
  - by rewrite insert_id.
  - rewrite Hl.
    rewrite (IH _ (<[BuildNum b := b]> o)) by apply lookup_insert_eq.
    by rewrite insert_insert_eq.
Qed.

Lemma merge_app bs1 bs2 m : merge (bs1 ++ bs2) m = merge bs2 (merge bs1 m).
Proof. unfold merge. apply foldl_app. Qed.

(** A running maximum: [step] moves the cursor to a time after it. *)
Section running_maximum.
Variable f : Build -> option time.Time.
Variable step : time.Time -> Build -> time.Time.
Hypothesis step_eq : forall t b,
  step t b = match f b with
             | Some u => if time.After u t then u else t
             | None => t
             end.

Lemma step_le t b : t <= step t b.
Proof.
  rewrite step_eq. unfold time.After. destruct (f b) as [u|]; [|lia].
  destruct (Z.ltb_spec t u); lia.
Qed.

Lemma foldl_step_le bs : forall t, t <= foldl step t bs.
Proof.
  induction bs as [|b bs IH]; intros t; simpl; [lia|].
  pose proof (step_le t b). pose proof (IH (step t b)). lia.
Qed.

Lemma foldl_step_greatest bs : forall t0, greatest f bs t0 (foldl step t0 bs).
Proof.
  induction bs as [|b bs IH]; intros t0; simpl.
  - split; [intros b u Hb; by apply elem_of_nil in Hb | by left].
  - destruct (IH (step t0 b)) as [Hub Hatt]. split.
    + intros b' u Hin Hu.
      apply elem_of_cons in Hin as [Heq|Hin]; [subst b'|by eapply Hub].
      pose proof (foldl_step_le bs (step t0 b)) as Hle.
      assert (u <= step t0 b); [|lia].
      rewrite step_eq, Hu. unfold time.After.
      destruct (Z.ltb_spec t0 u); lia.
    + destruct Hatt as [Heq|(b' & Hin & Hb')].
      * rewrite Heq, step_eq. unfold time.After.
        destruct (f b) as [u|] eqn:Hu; [|by left].
        destruct (Z.ltb_spec t0 u); [|by left].
        right. exists b. split; [apply elem_of_cons; by left | done].
      * right. exists b'. split; [apply elem_of_cons; by right | done].
Qed.
End running_maximum.

Lemma advance_eq t b :
  advance t b = match StopTime b with
                | Some u => if time.After u t then u else t
                | None => t
                end.
Proof. reflexivity. Qed.

Lemma bump_eq t b :
  bump t b = match updateTime b with
             | Some u => if time.After u t then u else t
             | None => t
             end.
Proof. reflexivity. Qed.

Lemma elem_of_rev {A} (x : A) (l : list A) : x ∈ rev l <-> x ∈ l.
Proof. rewrite !list_elem_of_In. symmetry. apply in_rev. Qed.

Lemma greatest_perm f bs bs' t0 t :
  (forall b, b ∈ bs <-> b ∈ bs') -> greatest f bs t0 t -> greatest f bs' t0 t.
Proof.
  intros Hiff [Hub Hatt]. split.
  - intros b u Hb. apply Hub. by apply Hiff.
  - destruct Hatt as [?|(b & Hb & ?)]; [by left|].
    right. exists b. split; [by apply Hiff | done].
Qed.

Lemma offsets_snoc k : forall page,
  offsets page (S k) = offsets page k ++ [(100, (page + Z.of_nat k) * 100)].
Proof.
  induction k as [|k IH]; intros page.
  - simpl. do 3 f_equal. lia.
  - change (offsets page (S (S k)))
      with ((100, page * 100) :: offsets (page + 1) (S k)).
    rewrite IH. simpl. do 5 f_equal. lia.
Qed.

Lemma coldPage_ok cc page w lv l o bs :
  allBuilds lv = Some l -> heap w !! l = Some o ->
  cc 100 (page * 100) = Ok bs ->
  coldPage cc page w lv =
    let w1 := with_heap (<[l := merge bs o]> (heap w))
                        (with_request (100, page * 100) w) in
    let lv1 := {| allBuilds := Some l; mrb := foldl advance (mrb lv) bs |} in
    if Z.of_nat (length bs) <? 100 then (Break, w1, lv1)
    else (Continue, publish_builds (Some l) w1, lv1).
Proof.
  intros Hl Ho Hcc. unfold coldPage. rewrite Hcc, Hl. simpl.
  rewrite (record_all_merge l bs _ o Ho). reflexivity.
Qed.

Lemma coldLoop_full cc l : forall j n page w lv o,
  allBuilds lv = Some l -> heap w !! l = Some o ->
  (forall i, (i < j)%nat -> full_page cc (page + Z.of_nat i)) ->
  exists w' lv',
    coldLoop cc (j + n) page w lv = coldLoop cc n (page + Z.of_nat j) w' lv' /\
    after_pages cc l o page j w lv w' lv'.
Proof.
  induction j as [|j IH]; intros n page w lv o Hl Ho Hfull.
  - exists w, lv. split; [simpl; f_equal; lia|].
    repeat split; simpl.
    + by rewrite insert_id.
    + by rewrite app_nil_r.
    + destruct lv; simpl in *; congruence.
  - destruct (Hfull O ltac:(lia)) as (bs & Hcc & Hlen).
    replace (page + Z.of_nat 0) with page in Hcc by lia.
    pose proof (coldPage_ok cc page w lv l o bs Hl Ho Hcc) as Hpage.
    simpl in Hpage.
    destruct (Z.ltb_spec (Z.of_nat (length bs)) 100) as [?|_]; [lia|].
    edestruct (IH n (page + 1)
                 (publish_builds (Some l)
                    (with_heap (<[l := merge bs o]> (heap w))
                               (with_request (100, page * 100) w)))
                 {| allBuilds := Some l; mrb := foldl advance (mrb lv) bs |}
                 (merge bs o))
      as (w' & lv' & Hloop & Hthis & Hheap & Hreq & Hlv).
    { reflexivity. }
    { simpl. apply lookup_insert_eq. }
    { intros i Hi. replace (page + 1 + Z.of_nat i) with (page + Z.of_nat (S i)) by lia.
      apply Hfull. lia. }
    exists w', lv'. split.
    + simpl. rewrite Hpage, Hloop. f_equal. lia.
    + unfold after_pages. simpl fetched. rewrite Hcc.
      rewrite merge_app, foldl_app. repeat split.
      * rewrite Hthis. by destruct j.
      * rewrite Hheap. simpl. by rewrite insert_insert_eq.
      * rewrite Hreq. simpl. by rewrite <- app_assoc.
      * exact Hlv.
Qed.

(** The map made at the declaration is new: no map of the heap is
    touched by it. *)
Lemma lookup_make (h : gmap loc (gmap Z Build)) l o :
  h !! l = Some o -> <[fresh (dom h) := ∅]> h !! l = Some o.
Proof.
  intros Hl. rewrite lookup_insert_ne; [done|].
  intros <-. pose proof (is_fresh (dom h)) as Hfresh.
  apply not_elem_of_dom in Hfresh. congruence.
Qed.

Lemma deref_make (h : gmap loc (gmap Z Build)) m :
  deref (<[fresh (dom h) := ∅]> h) m = deref h m.
Proof.
  destruct m as [l|]; [|done]. simpl.
  destruct (decide (fresh (dom h) = l)) as [<-|Hne].
  - rewrite lookup_insert_eq.
    pose proof (is_fresh (dom h)) as Hfresh.
    apply not_elem_of_dom in Hfresh. by rewrite Hfresh.
  - by rewrite lookup_insert_ne.
Qed.

(** [refreshCache] in cold and in warm state. *)
Lemma refreshCache_cold cc w :
  time.IsZero (mostRecentBuild (cache (this w))) = true ->
  refreshCache cc w =
    match coldLoop cc 20 0
            (with_heap (<[fresh (dom (heap w)) := ∅]> (heap w)) w)
            {| allBuilds := Some (fresh (dom (heap w)));
               mrb := mostRecentBuild (cache (this w)) |} with
    | inl rw => rw
    | inr (w', lv) => (RetNil, publish (allBuilds lv) (mrb lv) w')
    end.
Proof.
  intros Hz. unfold refreshCache, make_buildMap. cbv beta iota zeta.
  cbn [this with_heap]. by rewrite Hz.
Qed.

Lemma refreshCache_warm cc w :
  time.IsZero (mostRecentBuild (cache (this w))) = false ->
  refreshCache cc w =
    let m := builds (cache (this w)) in
    let h0 := <[fresh (dom (heap w)) := ∅]> (heap w) in
    let w0 := with_request (100, 0) (with_heap h0 w) in
    match cc 100 0 with
    | Err e => (RetErr e, w0)
    | Ok bs =>
        let a := warmLoop m (mostRecentBuild (cache (this w))) bs h0 in
        match wheap a with
        | None => (RetPanic, w0)
        | Some h =>
            if (changed a =? 0)%nat then (RetNil, with_heap h w0)
            else (RetNil, publish m (wmrb a) (with_heap h w0))
        end
    end.
Proof.
  intros Hz. unfold refreshCache, make_buildMap. cbv beta iota zeta.
  cbn [this with_heap]. by rewrite Hz.
Qed.

(** A cold cycle whose fetch of page [k] fails after [k] full pages. *)
Lemma refresh_cold_err cc w k e :
  time.IsZero (mostRecentBuild (cache (this w))) = true ->
  (k < 20)%nat ->
  (forall i, (i < k)%nat -> full_page cc (Z.of_nat i)) ->
  cc 100 (Z.of_nat k * 100) = Err e ->
  exists w',
    refreshCache cc w = (RetErr e, w') /\
    mostRecentBuild (cache (this w')) = mostRecentBuild (cache (this w)) /\
    published w' = match k with
                   | O => published w
                   | S _ => merge (fetched cc 0 k) ∅
                   end /\
    requests w' = requests w ++ offsets 0 (S k) /\
    (k = O -> this w' = this w).
Proof.
  intros Hcold Hk Hfull Herr. rewrite (refreshCache_cold cc w Hcold).
  set (l := fresh (dom (heap w))).
  set (w0 := with_heap (<[l := ∅]> (heap w)) w).
  set (lv0 := {| allBuilds := Some l; mrb := mostRecentBuild (cache (this w)) |}).
  destruct (coldLoop_full cc l k (S (19 - k)) 0 w0 lv0 ∅)
    as (w1 & lv1 & Hloop & Hthis & Hheap & Hreq & Hlv).
  { reflexivity. }
  { simpl. apply lookup_insert_eq. }
  { intros i Hi. rewrite Z.add_0_l. by apply Hfull. }
  replace 20%nat with (k + S (19 - k))%nat by lia.
  rewrite Hloop. simpl. unfold coldPage. rewrite Z.add_0_l, Herr.
  eexists. split; [reflexivity|]. simpl. repeat split.
  - rewrite Hthis. by destruct k.
  - unfold published. simpl. rewrite Hthis, Hheap. destruct k as [|k'].
    + simpl. rewrite insert_insert_eq. apply deref_make.
    + simpl. by rewrite lookup_insert_eq.
  - rewrite Hreq. simpl. rewrite <- app_assoc. f_equal.
    change ((100, 0 * 100) :: offsets (0 + 1) k) with (offsets 0 (S k)).
    rewrite offsets_snoc. do 3 f_equal; lia.
  - intros ->. by rewrite Hthis.
Qed.

Lemma is_zero_eq t : time.IsZero t = true -> t = time.zero.
Proof. unfold time.IsZero, time.zero. lia. Qed.

(** A cold cycle that fetches [n] pages without an error. *)
Lemma refresh_cold_ok cc w n :
  time.IsZero (mostRecentBuild (cache (this w))) = true ->
  cold_pages cc n ->
  exists w',
    refreshCache cc w = (RetNil, w') /\
    published w' = merge (fetched cc 0 n) ∅ /\
    mostRecentBuild (cache (this w')) = foldl advance time.zero (fetched cc 0 n) /\
    requests w' = requests w ++ offsets 0 n /\
    salt (this w') = salt (this w) /\
    (exists l, builds (cache (this w')) = Some l /\
               heap w' !! l = Some (merge (fetched cc 0 n) ∅)).
Proof.
  intros Hcold Hpages. rewrite (refreshCache_cold cc w Hcold).
  rewrite (is_zero_eq _ Hcold).
  set (l := fresh (dom (heap w))).
  set (w0 := with_heap (<[l := ∅]> (heap w)) w).
  set (lv0 := {| allBuilds := Some l; mrb := time.zero |}).
  assert (Hl0 : heap w0 !! l = Some ∅) by (simpl; apply lookup_insert_eq).
  destruct Hpages as [(k & -> & Hk & Hfull & bs & Hcc & Hlen)|[-> Hfull]].
  - destruct (coldLoop_full cc l k (S (19 - k)) 0 w0 lv0 ∅ eq_refl Hl0)
      as (w1 & lv1 & Hloop & Hthis & Hheap & Hreq & Hlv).
    { intros i Hi. rewrite Z.add_0_l. by apply Hfull. }
    replace 20%nat with (k + S (19 - k))%nat by lia.
    rewrite Hloop. rewrite Z.add_0_l.
    assert (Hl1 : heap w1 !! l = Some (merge (fetched cc 0 k) ∅))
      by (rewrite Hheap; apply lookup_insert_eq).
    assert (Hal : allBuilds lv1 = Some l) by (by rewrite Hlv).
    pose proof (coldPage_ok cc (Z.of_nat k) w1 lv1 l _ bs Hal Hl1 Hcc) as Hpage.
    cbv zeta in Hpage.
    destruct (Z.ltb_spec (Z.of_nat (length bs)) 100) as [_|?]; [|lia].
    cbn [coldLoop]. rewrite Hpage.
    assert (Hfetch : fetched cc 0 (S k) = fetched cc 0 k ++ bs).
    { clear -Hcc. revert Hcc. replace (Z.of_nat k) with (0 + Z.of_nat k) by lia.
      generalize 0 as p. induction k as [|k IH]; intros p Hcc.
      - simpl. rewrite Z.add_0_r in Hcc. rewrite Hcc. by rewrite app_nil_r.
      - change (fetched cc p (S (S k)))
          with (match cc 100 (p * 100) with Ok bs => bs | Err _ => [] end
                ++ fetched cc (p + 1) (S k)).
        rewrite (IH (p + 1)).
        + simpl. by rewrite app_assoc.
        + rewrite <- Hcc. do 2 f_equal. lia. }
    eexists. split; [reflexivity|]. rewrite Hfetch.
    split; [|split; [|split; [|split]]].
    + unfold published. simpl. rewrite lookup_insert_eq. simpl.
      by rewrite merge_app.
    + simpl. rewrite Hlv. simpl. by rewrite foldl_app.
    + rewrite offsets_snoc, Z.add_0_l. simpl.
      by rewrite Hreq, <- app_assoc.
    + simpl. rewrite Hthis. by destruct k.
    + exists l. simpl. split; [done|]. by rewrite lookup_insert_eq, merge_app.
  - destruct (coldLoop_full cc l 20 0 0 w0 lv0 ∅ eq_refl Hl0)
      as (w1 & lv1 & Hloop & Hthis & Hheap & Hreq & Hlv).
    { intros i Hi. rewrite Z.add_0_l. by apply Hfull. }
    change 20%nat with (20 + 0)%nat at 1. rewrite Hloop. cbn [coldLoop].
    eexists. split; [reflexivity|].
    split; [|split; [|split; [|split]]].
    + unfold published. simpl. rewrite Hlv, Hheap. simpl.
      by rewrite lookup_insert_eq.
    + simpl. by rewrite Hlv.
    + simpl. by rewrite Hreq.
    + simpl. by rewrite Hthis.
    + exists l. simpl. rewrite Hlv, Hheap. simpl.
      split; [done|]. by rewrite lookup_insert_eq.
Qed.

(** After each full page the shared map is the accumulated one. *)
Lemma coldLoop_published cc l j page w lv o :
  allBuilds lv = Some l -> heap w !! l = Some o ->
  (forall i, (i < S j)%nat -> full_page cc (page + Z.of_nat i)) ->
  exists w' lv',
    coldLoop cc (S j) page w lv = inr (w', lv') /\
    published w' = merge (fetched cc page (S j)) o /\
    mostRecentBuild (cache (this w')) = mostRecentBuild (cache (this w)).
Proof.
  intros Hl Ho Hfull.
  destruct (coldLoop_full cc l (S j) 0 page w lv o Hl Ho Hfull)
    as (w' & lv' & Hloop & Hthis & Hheap & Hreq & Hlv).
  exists w', lv'. replace (S j) with (S j + 0)%nat at 1 by lia.
  rewrite Hloop. split; [reflexivity|]. split.
  - unfold published. rewrite Hthis, Hheap. simpl. by rewrite lookup_insert_eq.
  - by rewrite Hthis.
Qed.

(** The cold loop never returns nil from inside, and its running
    cursor never moves back. *)
Lemma coldLoop_cursor cc n : forall page w lv,
  match coldLoop cc n page w lv with
  | inl (r, w') => r <> RetNil /\ this w' = this w \/
                   r <> RetNil /\ salt (this w') = salt (this w) /\
                   mostRecentBuild (cache (this w')) = mostRecentBuild (cache (this w))
  | inr (w', lv') => mrb lv <= mrb lv' /\ salt (this w') = salt (this w)
  end.
Proof.
  induction n as [|n IH]; intros page w lv; simpl; [split; [lia|done]|].
  unfold coldPage. destruct (cc 100 (page * 100)) as [bs|e].
  - destruct (record_all (allBuilds lv) bs _) as [h|]; [|left; by split].
    pose proof (foldl_step_le StopTime advance advance_eq bs (mrb lv)) as Hle.
    destruct (Z.of_nat (length bs) <? 100); [by split|].
    match goal with |- context [coldLoop cc n ?p ?w1 ?lv1] =>
      specialize (IH p w1 lv1); destruct (coldLoop cc n p w1 lv1) as [[r w']|[w' lv']]
    end; simpl in IH.
    + right. destruct IH as [[Hr Hthis]|(Hr & Hsalt & Hmrb)].
      * rewrite Hthis. by repeat split.
      * by repeat split.
    + destruct IH as [Hle' Hsalt]. split; [lia|done].
  - left. by split.
Qed.

(** *** The warm loop *)

Lemma warmStep_eq m previous a b :
  warmStep m previous a b =
    match updateTime b with
    | None => a
    | Some u =>
        {| wheap := if newer previous b then h ← wheap a; mapassign m b h
                    else wheap a;
           wmrb := bump (wmrb a) b;
           changed := if newer previous b then S (changed a) else changed a |}
    end.
Proof.
  unfold warmStep, newer, bump. destruct (updateTime b) as [u|]; [|done].
  by destruct (time.After u previous).
Qed.

Lemma skipped_eq previous t b :
  updateTime b = None -> newer previous b = false /\ bump t b = t.
Proof. intros H. unfold newer, bump. by rewrite H. Qed.

Lemma warmLoop_fold l previous walk : forall a h o,
  wheap a = Some h -> h !! l = Some o ->
  foldl (warmStep (Some l) previous) a walk =
    {| wheap := Some (<[l := merge (List.filter (newer previous) walk) o]> h);
       wmrb := foldl bump (wmrb a) walk;
       changed := changed a + length (List.filter (newer previous) walk) |}.
Proof.
  induction walk as [|b walk IH]; intros a h o Ha Ho.
  - simpl. rewrite insert_id by done. destruct a; simpl in *. f_equal; [done|lia].
  - cbn [foldl List.filter]. rewrite warmStep_eq.
    destruct (updateTime b) as [u|] eqn:Hu.
    + destruct (newer previous b).
      * erewrite IH; [|simpl; rewrite Ha; simpl; rewrite Ho; reflexivity
                      |apply lookup_insert_eq].
        simpl. f_equal; [|lia]. by rewrite insert_insert_eq.
      * erewrite IH; [|exact Ha|exact Ho]. reflexivity.
    + destruct (skipped_eq previous (wmrb a) b Hu) as [-> ->]. by apply IH.
Qed.

Lemma warmLoop_cursor m previous walk : forall a,
  wmrb (foldl (warmStep m previous) a walk) = foldl bump (wmrb a) walk /\
  (List.filter (newer previous) walk = [] ->
   foldl (warmStep m previous) a walk =
     {| wheap := wheap a; wmrb := foldl bump (wmrb a) walk; changed := changed a |}).
Proof.
  induction walk as [|b walk IH]; intros a.
  - simpl. split; [done|]. by destruct a.
  - cbn [foldl List.filter]. rewrite warmStep_eq.
    destruct (updateTime b) as [u|] eqn:Hu.
    + match goal with |- context [foldl _ ?a1 walk] =>
        destruct (IH a1) as [H1 H2] end.
      split; [exact H1|].
      destruct (newer previous b); [discriminate|].
      intros Hnil. by rewrite (H2 Hnil).
    + destruct (skipped_eq previous (wmrb a) b Hu) as [-> ->]. by apply IH.
Qed.

Lemma warmLoop_changed m previous walk : forall a,
  changed (foldl (warmStep m previous) a walk) =
    (changed a + length (List.filter (newer previous) walk))%nat.
Proof.
  induction walk as [|b walk IH]; intros a.
  - simpl. lia.
  - cbn [foldl List.filter]. rewrite IH, warmStep_eq.
    destruct (updateTime b) as [u|] eqn:Hu.
    + destruct (newer previous b); simpl; lia.
    + destruct (skipped_eq previous (wmrb a) b Hu) as [-> _]. lia.
Qed.

Lemma merge_size bs : forall (m : gmap Z Build),
  NoDup (BuildNum <$> bs) ->
  (forall b, b ∈ bs -> m !! BuildNum b = None) ->
  size (merge bs m) = (size m + length bs)%nat.
Proof.
  induction bs as [|b bs IH]; intros m Hnd Hfree; simpl; [lia|].
  rewrite fmap_cons in Hnd. apply NoDup_cons in Hnd as [Hb Hnd].
  change (merge (b :: bs) m) with (merge bs (<[BuildNum b := b]> m)).
  rewrite IH; [| done |].
  - rewrite map_size_insert_None; [lia|]. apply Hfree, elem_of_cons. by left.
  - intros b' Hb'. rewrite lookup_insert_ne.
    + apply Hfree, elem_of_cons. by right.
    + intros Heq. apply Hb. rewrite Heq. by apply list_elem_of_fmap_2.
Qed.

(** Every cold upstream either lets the loop run to its end or fails at
    some page. *)
Lemma cold_cases (cc : Client) :
  (exists n, cold_pages cc n) \/
  (exists k e, (k < 20)%nat /\
     (forall i, (i < k)%nat -> full_page cc (Z.of_nat i)) /\
     cc 100 (Z.of_nat k * 100) = Err e).
Proof.
  assert (Hind : forall j, (j <= 20)%nat ->
    (forall i, (i < j)%nat -> full_page cc (Z.of_nat i)) \/
    (exists k, (k < j)%nat /\
       (forall i, (i < k)%nat -> full_page cc (Z.of_nat i)) /\
       (short_page cc (Z.of_nat k) \/ exists e, cc 100 (Z.of_nat k * 100) = Err e))).
  { induction j as [|j IH]; intros Hj; [left; intros i Hi; lia|].
    destruct IH as [Hfull|(k & Hk & Hfull & Hend)]; [lia| |].
    - destruct (cc 100 (Z.of_nat j * 100)) as [bs|e] eqn:Hcc.
      + destruct (le_lt_dec 100 (length bs)) as [Hlen|Hlen].
        * left. intros i Hi. destruct (decide (i = j)) as [->|Hne].
          -- exists bs. by split.
          -- apply Hfull. lia.
        * right. exists j. split; [lia|]. split; [done|].
          left. exists bs. by split.
      + right. exists j. split; [lia|]. split; [done|]. right. by exists e.
    - right. exists k. split; [lia|]. by split. }
  destruct (Hind 20%nat ltac:(lia)) as [Hfull|(k & Hk & Hfull & [Hshort|[e He]])].
  - left. exists 20%nat. right. by split.
  - left. exists (S k). left. exists k. by repeat split.
  - right. exists k, e. by repeat split.
Qed.

(** [reachable] holds at start and is kept by every cycle. *)
Lemma NewServer_reachable cfg lt ld r s r' h q :
  NewServer cfg lt ld r = (Ok s, r') ->
  reachable {| this := s; heap := h; requests := q |}.
Proof.
  unfold NewServer. destruct (randStringRunes 10 r) as [str r1].
  destruct lt; [discriminate|]. destruct ld; [discriminate|].
  intros H. injection H as <- _. intros Hz. discriminate.
Qed.

Lemma refreshCache_reachable cc w :
  reachable w -> reachable (snd (refreshCache cc w)).
Proof.
  intros Hreach.
  destruct (time.IsZero (mostRecentBuild (cache (this w)))) eqn:Hz.
  - destruct (cold_cases cc) as [[n Hn]|(k & e & Hk & Hfull & Herr)].
    + destruct (refresh_cold_ok cc w n Hz Hn)
        as (w' & -> & _ & _ & _ & _ & l & Hl & Ho).
      intros _. by exists l, (merge (fetched cc 0 n) ∅).
    + destruct (refresh_cold_err cc w k e Hz Hk Hfull Herr) as (w' & -> & Hc & _).
      simpl. intros Hnz. rewrite Hc in Hnz. congruence.
  - destruct (Hreach Hz) as (l & o & Hl & Ho).
    rewrite (refreshCache_warm cc w Hz), Hl. cbv zeta.
    destruct (cc 100 0) as [bs|e].
    + unfold warmLoop.
      erewrite (warmLoop_fold l _ (rev bs) _ _ o);
        [|reflexivity|by apply lookup_make].
      cbn [wheap changed wmrb].
      destruct (_ =? 0)%nat; simpl; intros _.
      * exists l. eexists. split; [done|]. apply lookup_insert_eq.
      * exists l. eexists. split; [done|]. apply lookup_insert_eq.
    + simpl. intros _. exists l, o. split; [done|]. by apply lookup_make.
Qed.
End sync_facts.

(** * The sync engine: the claims *)
Module sync_claims.
Import circleci server spec sync_facts.

(** C1 (as amended). A cycle whose upstream fetch fails returns that
    error and leaves the cursor as it was. The published map is
    unchanged when the failing fetch is the first of the cycle (always
    so in warm state); when page [k > 0] of a cold cycle fails, the
    published map is the one accumulated from the [k] pages before it. *)
Theorem failed_cycle cc w k e :
  (if time.IsZero (mostRecentBuild (cache (this w)))
   then (k < 20)%nat /\ forall i, (i < k)%nat -> full_page cc (Z.of_nat i)
   else k = O) ->
  cc 100 (Z.of_nat k * 100) = Err e ->
  exists w',
    refreshCache cc w = (RetErr e, w') /\
    mostRecentBuild (cache (this w')) = mostRecentBuild (cache (this w)) /\
    published w' = match k with
                   | O => published w
                   | S _ => merge (fetched cc 0 k) ∅
                   end /\
    (k = O -> this w' = this w).
Proof.
  intros Hk Herr.
  destruct (time.IsZero (mostRecentBuild (cache (this w)))) eqn:Hz.
  - destruct Hk as [Hk Hfull].
    destruct (refresh_cold_err cc w k e Hz Hk Hfull Herr)
      as (w' & Heq & Hc & Hp & _ & Ht).
    exists w'. by repeat split.
  - subst k. change (cc 100 0 = Err e) in Herr.
    rewrite (refreshCache_warm cc w Hz), Herr. cbv zeta.
    eexists. split; [reflexivity|]. split; [done|]. split; [|done].
    unfold published. simpl. apply deref_make.
Qed.

(** [failed_cycle] on a cold start against an upstream whose second
    page fails. *)
Lemma failed_cycle_witness :
  exists w',
    refreshCache examples.upstream_failing examples.world0
      = (RetErr "upstream unavailable", w') /\
    mostRecentBuild (cache (this w')) = mostRecentBuild (cache (this examples.world0)) /\
    published w' = merge (fetched examples.upstream_failing 0 1) ∅ /\
    (1%nat = O -> this w' = this examples.world0).
Proof.
  apply (failed_cycle examples.upstream_failing examples.world0 1
           "upstream unavailable").
  - split; [lia|]. intros i Hi. assert (i = O) as -> by lia.
    eexists. split; [reflexivity|]. vm_compute. lia.
  - reflexivity.
Defined.

(** C1, as stated, fails: in a cold cycle whose second fetch fails the
    error is returned, yet the published map went from empty to the 100
    builds of the first page. *)
Lemma failed_cold_cycle_publishes :
  examples.upstream_failing 100 100 = Err "upstream unavailable" /\
  fst (refreshCache examples.upstream_failing examples.world0)
    = RetErr "upstream unavailable" /\
  size (published examples.world0) = 0%nat /\
  size (published (snd (refreshCache examples.upstream_failing examples.world0)))
    = 100%nat.
Proof. vm_compute. by repeat split. Qed.

(** C7. A cycle that returns nil leaves the cursor where it was or
    later. *)
Theorem cursor_monotone cc w w' :
  refreshCache cc w = (RetNil, w') ->
  mostRecentBuild (cache (this w)) <= mostRecentBuild (cache (this w')).
Proof.
  intros Hrun.
  destruct (time.IsZero (mostRecentBuild (cache (this w)))) eqn:Hz.
  - destruct (cold_cases cc) as [[n Hn]|(k & e & Hk & Hfull & Herr)].
    + destruct (refresh_cold_ok cc w n Hz Hn) as (w1 & Heq & _ & Hc & _).
      rewrite Heq in Hrun. injection Hrun as <-. rewrite Hc.
      rewrite (is_zero_eq _ Hz).
      apply (foldl_step_le StopTime advance advance_eq).
    + destruct (refresh_cold_err cc w k e Hz Hk Hfull Herr) as (w1 & Heq & _).
      rewrite Heq in Hrun. discriminate.
  - rewrite (refreshCache_warm cc w Hz) in Hrun. cbv zeta in Hrun.
    destruct (cc 100 0) as [bs|e]; [|discriminate].
    unfold warmLoop in Hrun.
    match type of Hrun with context [foldl ?f ?a ?l] =>
      destruct (warmLoop_cursor (builds (cache (this w)))
                  (mostRecentBuild (cache (this w))) l a) as [Hm _];
      destruct (foldl f a l) as [oh t c] eqn:Hfold
    end.
    simpl in Hm, Hrun. destruct oh as [h|]; [|discriminate].
    destruct (c =? 0)%nat; injection Hrun as <-; simpl; [lia|].
    rewrite Hm. apply (foldl_step_le updateTime bump bump_eq).
Qed.

(** [cursor_monotone] on a cold start against 240 builds. *)
Lemma cursor_monotone_witness :
  mostRecentBuild (cache (this examples.world0)) <=
  mostRecentBuild
    (cache (this (snd (refreshCache examples.upstream240 examples.world0)))).
Proof.
  apply (cursor_monotone examples.upstream240 examples.world0).
  vm_compute. reflexivity.
Defined.

(** C5. A warm cycle on a reachable state fetches one page (limit 100,
    offset 0) and walks it from its last record to its first. A record
    with neither time is skipped. The records whose update time (stop
    time if there is one, else start time) is after the previous cursor
    are counted and merged into the published map in that order. With
    none of them the server (cache and cursor) and the published map
    are left as they were; else the new cursor is the greatest update
    time of the page. *)
Theorem warm_cycle cc w bs :
  time.IsZero (mostRecentBuild (cache (this w))) = false ->
  reachable w ->
  cc 100 0 = Ok bs ->
  let previous := mostRecentBuild (cache (this w)) in
  let news := List.filter (newer previous) (rev bs) in
  exists w',
    refreshCache cc w = (RetNil, w') /\
    requests w' = requests w ++ [(100, 0)] /\
    (forall h, changed (warmLoop (builds (cache (this w))) previous bs h)
               = length news) /\
    (forall b, b ∈ news <->
       b ∈ bs /\ exists u, updateTime b = Some u /\ previous < u) /\
    (forall b, updateTime b = match StopTime b with
                              | Some t => Some t
                              | None => StartTime b
                              end) /\
    match news with
    | [] => this w' = this w /\ published w' = published w
    | _ :: _ =>
        published w' = merge news (published w) /\
        (forall b u, b ∈ bs -> updateTime b = Some u ->
           u <= mostRecentBuild (cache (this w'))) /\
        (exists b, b ∈ bs /\ updateTime b = Some (mostRecentBuild (cache (this w'))))
    end.
Proof.
  intros Hz Hreach Hcc previous news.
  destruct (Hreach Hz) as (l & o & Hl & Ho).
  assert (Hnews : forall b, b ∈ news <->
            b ∈ bs /\ exists u, updateTime b = Some u /\ previous < u).
  { intros b. unfold news. rewrite list_elem_of_In, filter_In, <- list_elem_of_In.
    rewrite elem_of_rev. unfold newer, time.After.
    split.
    - intros [Hb Hn]. split; [done|].
      destruct (updateTime b) as [u|]; [|done]. exists u. split; [done|lia].
    - intros [Hb (u & -> & Hu)]. split; [done|lia]. }
  assert (Hupd : forall b, updateTime b = match StopTime b with
                                          | Some t => Some t
                                          | None => StartTime b
                                          end).
  { intros b. unfold updateTime. by destruct (StartTime b), (StopTime b). }
  assert (Hcount : forall h, changed (warmLoop (builds (cache (this w))) previous bs h)
                             = length news).
  { intros h. unfold warmLoop.
    by rewrite (warmLoop_changed (builds (cache (this w))) previous (rev bs)). }
  set (h0 := <[fresh (dom (heap w)) := ∅]> (heap w)).
  assert (Ho0 : h0 !! l = Some o) by (by apply lookup_make).
  assert (Hfold : warmLoop (Some l) previous bs h0 =
            {| wheap := Some (<[l := merge news o]> h0);
               wmrb := foldl bump previous (rev bs);
               changed := length news |}).
  { unfold warmLoop.
    erewrite (warmLoop_fold l _ (rev bs) _ h0 o); [|reflexivity|exact Ho0].
    reflexivity. }
  assert (Hpub : published w = o)
    by (unfold published; rewrite Hl; simpl; by rewrite Ho).
  pose proof (foldl_step_greatest updateTime bump bump_eq (rev bs) previous)
    as [Hub Hatt].
  rewrite (refreshCache_warm cc w Hz), Hcc. cbv zeta. rewrite Hl.
  rewrite Hl in Hcount.
  fold previous. fold h0. rewrite Hfold. cbn [wheap changed wmrb].
  destruct news as [|b0 news'] eqn:Hn.
  - eexists. split; [reflexivity|]. cbn [length].
    split; [reflexivity|]. split; [exact Hcount|]. split; [exact Hnews|].
    split; [exact Hupd|]. split; [reflexivity|].
    rewrite Hpub. unfold published. simpl. rewrite Hl. simpl.
    by rewrite lookup_insert_eq.
  - eexists. split; [reflexivity|]. cbn [length Nat.eqb].
    split; [reflexivity|]. split; [exact Hcount|]. split; [exact Hnews|].
    split; [exact Hupd|]. split; [|split].
    + rewrite Hpub. unfold published. simpl. by rewrite lookup_insert_eq.
    + intros b u Hb Hu. simpl. apply (Hub b u); [by apply elem_of_rev|done].
    + simpl. destruct Hatt as [Heq|(b & Hb & Hu)].
      * exfalso.
        destruct (proj1 (Hnews b0)) as (Hb0 & u0 & Hu0 & Hlt);
          [apply elem_of_cons; by left|].
        pose proof (Hub b0 u0 (proj2 (elem_of_rev _ _) Hb0) Hu0). lia.
      * exists b. split; [by apply elem_of_rev|done].
Qed.

(** [warm_cycle] on a cache of two builds: build 3 is merged, the
    queued build 4 is skipped, the cursor moves to the stop time of
    build 3. *)
Lemma warm_cycle_witness :
  exists w',
    refreshCache examples.upstream_warm examples.warm_world = (RetNil, w') /\
    requests w' = [(100, 0)] /\
    published w' !! 3 = Some (examples.finished 3) /\
    published w' !! 4 = None /\
    mostRecentBuild (cache (this w')) = 2003.
Proof.
  destruct (warm_cycle examples.upstream_warm examples.warm_world
              [examples.queued 4; examples.finished 3; examples.finished 2])
    as (w' & Hrun & Hreq & _).
  - reflexivity.
  - intros _. exists 1%positive. eexists. split; reflexivity.
  - reflexivity.
  - exists w'. split; [exact Hrun|]. split; [exact Hreq|].
    assert (w' = snd (refreshCache examples.upstream_warm examples.warm_world))
      as -> by (by rewrite Hrun).
    vm_compute. by repeat split.
Defined.

(** C6 (as amended). A cold cycle requests pages of 100 records at the
    offsets 0, 100, ..., at most 20 of them, and stops after the first
    page of fewer than 100 records. It returns nil with the published
    map holding every fetched record under its build number, a later
    record replacing an earlier one of the same number, and with the
    cursor at the greatest stop time fetched (the zero time if there is
    none after it). Inside the loop, after every full page the published
    map is the accumulated one. For pages of 100, 100 and 40 records
    with pairwise distinct build numbers: 240 entries, three requests. *)
Theorem cold_cycle cc w :
  time.IsZero (mostRecentBuild (cache (this w))) = true ->
  (forall n, cold_pages cc n ->
     (n <= 20)%nat /\
     exists w',
       refreshCache cc w = (RetNil, w') /\
       requests w' = requests w ++ offsets 0 n /\
       published w' = merge (fetched cc 0 n) ∅ /\
       mostRecentBuild (cache (this w')) = foldl advance time.zero (fetched cc 0 n) /\
       greatest StopTime (fetched cc 0 n) time.zero
                (mostRecentBuild (cache (this w')))) /\
  (forall l j page wi lv o,
     allBuilds lv = Some l -> heap wi !! l = Some o ->
     (forall i, (i < S j)%nat -> full_page cc (page + Z.of_nat i)) ->
     exists w' lv',
       coldLoop cc (S j) page wi lv = inr (w', lv') /\
       published w' = merge (fetched cc page (S j)) o /\
       mostRecentBuild (cache (this w')) = mostRecentBuild (cache (this wi))) /\
  (forall p0 p1 p2,
     cc 100 0 = Ok p0 -> cc 100 100 = Ok p1 -> cc 100 200 = Ok p2 ->
     length p0 = 100%nat -> length p1 = 100%nat -> length p2 = 40%nat ->
     NoDup (BuildNum <$> p0 ++ p1 ++ p2) ->
     exists w',
       refreshCache cc w = (RetNil, w') /\
       size (published w') = 240%nat /\
       greatest StopTime (p0 ++ p1 ++ p2) time.zero
                (mostRecentBuild (cache (this w'))) /\
       requests w' = requests w ++ [(100, 0); (100, 100); (100, 200)]).
Proof.
  intros Hz.
  assert (Hgen : forall n, cold_pages cc n ->
     exists w',
       refreshCache cc w = (RetNil, w') /\
       requests w' = requests w ++ offsets 0 n /\
       published w' = merge (fetched cc 0 n) ∅ /\
       mostRecentBuild (cache (this w')) = foldl advance time.zero (fetched cc 0 n) /\
       greatest StopTime (fetched cc 0 n) time.zero
                (mostRecentBuild (cache (this w')))).
  { intros n Hn.
    destruct (refresh_cold_ok cc w n Hz Hn) as (w' & Heq & Hp & Hc & Hr & _).
    exists w'. repeat split; try done; rewrite Hc;
      apply (foldl_step_greatest StopTime advance advance_eq). }
  split; [|split].
  - intros n Hn. split; [|by apply Hgen].
    destruct Hn as [(k & -> & Hk & _)|[-> _]]; lia.
  - intros l j page wi lv o. apply coldLoop_published.
  - intros p0 p1 p2 H0 H1 H2 L0 L1 L2 Hnd.
    destruct (Hgen 3%nat) as (w' & Heq & Hr & Hp & Hc & Hg).
    { left. exists 2%nat. split; [done|]. split; [lia|]. split.
      - intros i Hi. destruct i as [|[|i]]; [| |lia].
        + exists p0. split; [exact H0|lia].
        + exists p1. split; [exact H1|lia].
      - exists p2. split; [exact H2|lia]. }
    assert (Hf : fetched cc 0 3 = p0 ++ p1 ++ p2).
    { simpl. change (0 * 100) with 0. change ((0 + 1) * 100) with 100.
      change ((0 + 1 + 1) * 100) with 200.
      rewrite H0, H1, H2. by rewrite app_nil_r. }
    rewrite Hf in Hp, Hg. exists w'. split; [exact Heq|]. split; [|split].
    + rewrite Hp, merge_size; [|exact Hnd|intros; apply lookup_empty].
      rewrite map_size_empty, !length_app, L0, L1, L2. reflexivity.
    + exact Hg.
    + exact Hr.
Qed.

(** [cold_cycle] on a cold start against 240 builds. *)
Lemma cold_cycle_witness :
  exists w',
    refreshCache examples.upstream240 examples.world0 = (RetNil, w') /\
    size (published w') = 240%nat /\
    greatest StopTime
      (examples.page 0 100 ++ examples.page 100 100 ++ examples.page 200 40)
      time.zero (mostRecentBuild (cache (this w'))) /\
    requests w' = requests examples.world0 ++ [(100, 0); (100, 100); (100, 200)].
Proof.
  destruct (cold_cycle examples.upstream240 examples.world0 eq_refl)
    as (_ & _ & Hscenario).
  apply Hscenario; try reflexivity.
  apply (bool_decide_unpack _). vm_compute. exact I.
Defined.

(** C6, as stated, fails: with pages of 100, 100 and 40 records of which
    one build stands on two pages, the cycle makes its three requests
    and returns nil, and the map holds 239 entries, not 240. *)
Lemma overlapping_pages_share_an_entry :
  examples.upstream_shifted 100 0 = Ok (examples.page 0 100) /\
  examples.upstream_shifted 100 100 = Ok (examples.page 99 100) /\
  examples.upstream_shifted 100 200 = Ok (examples.page 199 40) /\
  length (examples.page 0 100) = 100%nat /\
  length (examples.page 99 100) = 100%nat /\
  length (examples.page 199 40) = 40%nat /\
  fst (refreshCache examples.upstream_shifted examples.world0) = RetNil /\
  requests (snd (refreshCache examples.upstream_shifted examples.world0))
    = [(100, 0); (100, 100); (100, 200)] /\
  size (published (snd (refreshCache examples.upstream_shifted examples.world0)))
    = 239%nat /\
  mostRecentBuild
    (cache (this (snd (refreshCache examples.upstream_shifted examples.world0))))
    = 2238.
Proof. vm_compute. by repeat split. Qed.
End sync_claims.

(** * Properties of the token gate *)
Module token_facts.
Import server.

(** The test suite of RFC 1321, appendix A.5. *)
Lemma md5_test_suite :
  map (fun m => fmt.hex (md5.Sum (fmt.bytes_of_string m)))
      [""; "a"; "abc"; "message digest"; "abcdefghijklmnopqrstuvwxyz";
       "ABCDEFGHIJKLMNOPQRSTUVWXYZabcdefghijklmnopqrstuvwxyz0123456789";
       "12345678901234567890123456789012345678901234567890123456789012345678901234567890"]%string
  = ["d41d8cd98f00b204e9800998ecf8427e"; "0cc175b9c0f1b6a831c399e269772661";
     "900150983cd24fb0d6963f7d28e17f72"; "f96b697d7cb7938d525a2f31aaf161d0";
     "c3fcd3d76192e4007dfb496cca67e13b"; "d174ab98d277d9f5a5611c2c9f419d9f";
     "57edf4a22be3c955ac49da2e2107b67a"]%string.
Proof. vm_compute. reflexivity. Qed.

Lemma Sum_cons data : exists b bs, md5.Sum data = b :: bs.
Proof. unfold md5.Sum, md5.word_bytes. eexists _, _. reflexivity. Qed.

Lemma getHash_nonempty s id : getHash s id <> EmptyString.
Proof.
  unfold getHash. destruct (Sum_cons (fmt.bytes_of_string (String.append id (salt s))))
    as (b & bs & ->).
  discriminate.
Qed.

Lemma getHash_length s id : String.length (getHash s id) = 32%nat.
Proof.
  unfold getHash, md5.Sum, md5.word_bytes. reflexivity.
Qed.

Lemma strip_prefix_app p : forall s rest,
  regexp.strip_prefix p s = Some rest -> s = String.append p rest.
Proof.
  induction p as [|a p IH]; intros s rest H; simpl in *.
  - by injection H as ->.
  - destruct s as [|b s]; [discriminate|].
    destruct (Ascii.eqb_spec a b) as [->|]; [|discriminate].
    by rewrite (IH _ _ H).
Qed.

Lemma literal_then_some_spec p s :
  regexp.literal_then_some p s = true ->
  exists rest, s = String.append p rest /\ rest <> EmptyString.
Proof.
  unfold regexp.literal_then_some.
  destruct (regexp.strip_prefix p s) as [rest|] eqn:Hp; [|discriminate].
  intros H. exists rest. split; [by apply strip_prefix_app|].
  intros ->. discriminate.
Qed.

(** What the middleware does, case by case. *)
Lemma tokenMiddleware_cases s re next c :
  tokenMiddleware s re next c =
    if re (echo.Path c) then
      if String.eqb (echo.Param c "token") (getHash s (echo.Param c "*"))
      then next c
      else Some (echo.HTTPError 401 "Unauthorized")
    else next c.
Proof.
  unfold tokenMiddleware. destruct (re (echo.Path c)); [|done].
  rewrite (String.eqb_sym (getHash _ _)).
  destruct (String.eqb_spec (echo.Param c "token") (getHash s (echo.Param c "*")))
    as [Heq|Hne].
  - rewrite Heq.
    destruct (String.eqb_spec (getHash s (echo.Param c "*")) EmptyString) as [He|_];
      [by apply getHash_nonempty in He|done].
  - by destruct (negb _).
Qed.

Lemma randStringRunes_spec n : forall r,
  String.length (fst (randStringRunes n r)) = n /\
  (forall c, In c (list_ascii_of_string (fst (randStringRunes n r))) ->
             In c letterRunes) /\
  rand.raw (snd (randStringRunes n r)) = rand.raw r /\
  rand.drawn (snd (randStringRunes n r)) = (rand.drawn r + n)%nat.
Proof.
  induction n as [|n IH]; intros r.
  - simpl. repeat split; [by intros c []|lia].
  - cbn [randStringRunes]. unfold rand.Intn.
    match goal with |- context [randStringRunes n ?r1] =>
      destruct (IH r1) as (Hlen & Hin & Hraw & Hdrawn);
      destruct (randStringRunes n r1) as [rest r2] eqn:Hrest
    end.
    cbn [fst snd rand.raw rand.drawn] in *.
    split; [|split; [|split]].
    + cbn [String.length]. by rewrite Hlen.
    + cbn [list_ascii_of_string]. intros c [<-|Hc]; [|by apply Hin].
      apply nth_In.
      pose proof (Z.mod_pos_bound (rand.raw r (rand.drawn r)) 52 ltac:(lia)).
      change (length letterRunes) with 52%nat.
      change (Z.of_nat 52) with 52. lia.
    + exact Hraw.
    + lia.
Qed.

(** The string drawn depends only on the next [n] values of the source,
    reduced modulo the number of letters. *)
Lemma randStringRunes_ext n : forall r r',
  (forall i, (i < n)%nat ->
     rand.raw r (rand.drawn r + i)%nat mod 52 = rand.raw r' (rand.drawn r' + i)%nat mod 52) ->
  fst (randStringRunes n r) = fst (randStringRunes n r').
Proof.
  induction n as [|n IH]; intros r r' Hsame; [done|].
  cbn [randStringRunes]. unfold rand.Intn.
  change (Z.of_nat (length letterRunes)) with 52.
  pose proof (Hsame O ltac:(lia)) as H0. rewrite !Nat.add_0_r in H0.
  match goal with |- context [randStringRunes n ?r1] =>
    match goal with |- context [randStringRunes n ?r2] =>
      lazymatch r1 with r2 => fail | _ =>
        pose proof (IH r1 r2) as Hrest end end end.
  cbn [rand.raw rand.drawn] in Hrest.
  destruct (randStringRunes n {| rand.raw := rand.raw r; rand.drawn := S (rand.drawn r) |})
    as [s1 q1].
  destruct (randStringRunes n {| rand.raw := rand.raw r'; rand.drawn := S (rand.drawn r') |})
    as [s2 q2].
  cbn [fst snd] in *. rewrite H0. f_equal. apply Hrest.
  intros i Hi. specialize (Hsame (S i) ltac:(lia)).
  by rewrite !Nat.add_succ_r in Hsame.
Qed.

Lemma NewServer_salt cfg lt ld r s r' :
  NewServer cfg lt ld r = (Ok s, r') ->
  salt s = fst (randStringRunes 10 r) /\
  cache s = {| builds := None; mostRecentBuild := time.zero |}.
Proof.
  unfold NewServer. destruct (randStringRunes 10 r) as [str q].
  destruct lt; [discriminate|]. destruct ld; [discriminate|].
  intros H. injection H as <- _. by split.
Qed.

(** [refreshCache] writes the cache only. *)
Lemma refreshCache_salt cc w : salt (this (snd (refreshCache cc w))) = salt (this w).
Proof.
  destruct (time.IsZero (mostRecentBuild (cache (this w)))) eqn:Hz.
  - rewrite (sync_facts.refreshCache_cold cc w Hz).
    match goal with |- context [coldLoop cc 20 0 ?w0 ?lv0] =>
      pose proof (sync_facts.coldLoop_cursor cc 20 0 w0 lv0) as H;
      destruct (coldLoop cc 20 0 w0 lv0) as [[r w']|[w' lv']]
    end; simpl in *.
    + destruct H as [[_ ->]|(_ & -> & _)]; done.
    + by destruct H as [_ ->].
  - rewrite (sync_facts.refreshCache_warm cc w Hz). cbv zeta.
    destruct (cc 100 0); [|done].
    destruct (wheap _); [|done]. by destruct (_ =? _)%nat.
Qed.
End token_facts.

(** * The token gate: the claims *)
Module token_claims.
Import server token_facts.

(** C3. On a route that the expression matches, the gate hands the
    request to the inner handler exactly when the [token] parameter is
    the hash of the remainder of the path under the salt; the hash of a
    remainder always passes, every other token gets 401. *)
Theorem token_gate s (re : regexp.Regexp) c :
  re (echo.Path c) = true ->
  ((forall next, tokenMiddleware s re next c = next c) <->
     echo.Param c "token" = getHash s (echo.Param c "*")) /\
  (forall next, echo.Param c "token" = getHash s (echo.Param c "*") ->
     tokenMiddleware s re next c = next c) /\
  (forall next, echo.Param c "token" <> getHash s (echo.Param c "*") ->
     tokenMiddleware s re next c = Some (echo.HTTPError echo.StatusUnauthorized "Unauthorized")).
Proof.
  intros Hre.
  assert (Hyes : forall next, echo.Param c "token" = getHash s (echo.Param c "*") ->
            tokenMiddleware s re next c = next c).
  { intros next Heq. rewrite tokenMiddleware_cases, Hre, Heq.
    by rewrite String.eqb_refl. }
  assert (Hno : forall next, echo.Param c "token" <> getHash s (echo.Param c "*") ->
            tokenMiddleware s re next c =
              Some (echo.HTTPError echo.StatusUnauthorized "Unauthorized")).
  { intros next Hne. rewrite tokenMiddleware_cases, Hre.
    by destruct (String.eqb_spec (echo.Param c "token") (getHash s (echo.Param c "*"))). }
  split; [|by split].
  split; [|intros Heq next; by apply Hyes].
  intros Hpass.
  destruct (String.eqb_spec (echo.Param c "token") (getHash s (echo.Param c "*")))
    as [Heq|Hne]; [done|].
  specialize (Hpass (fun _ => None)). rewrite (Hno _ Hne) in Hpass. discriminate.
Qed.

(** [token_gate] on a request with the right token and on one whose
    token differs in its last digit. *)
Lemma token_gate_witness :
  tokenMiddleware examples.server0 tokenPaths examples.serve
    (examples.ipa_request "8ff3067a1f8f11bf1b770eea5fa2602c" "42/app.ipa") = None /\
  tokenMiddleware examples.server0 tokenPaths examples.serve
    (examples.ipa_request "8ff3067a1f8f11bf1b770eea5fa2602d" "42/app.ipa")
    = Some (echo.HTTPError 401 "Unauthorized").
Proof.
  split.
  - apply (token_gate examples.server0 tokenPaths
             (examples.ipa_request "8ff3067a1f8f11bf1b770eea5fa2602c" "42/app.ipa")
             eq_refl).
    vm_compute. reflexivity.
  - apply (token_gate examples.server0 tokenPaths
             (examples.ipa_request "8ff3067a1f8f11bf1b770eea5fa2602d" "42/app.ipa")
             eq_refl).
    vm_compute. discriminate.
Defined.

(** C9. On a route that the token expression does not match, the gate
    hands the request to the inner handler whatever its parameters;
    this is so for [/auth/build/:build_id], [/auth/builds/*] and
    [/auth/artifacts/:build_id]. A request is turned away only on a path
    made of one of the four gated prefixes and a non-empty rest; of the
    registered routes those are the five with a [:token] parameter. *)
Theorem ungated_routes s :
  (forall next c, tokenPaths (echo.Path c) = false ->
     auth_middleware s next c = next c) /\
  tokenPaths "/auth/build/:build_id" = false /\
  tokenPaths "/auth/builds/*" = false /\
  tokenPaths "/auth/artifacts/:build_id" = false /\
  (forall next c, auth_middleware s next c <> next c ->
     exists prefix rest,
       In prefix ["/auth/ipa/build/"; "/auth/dmg/build/"; "/auth/apk/build/";
                  "/auth/itms/release/"]%string /\
       echo.Path c = String.append prefix rest /\ rest <> EmptyString) /\
  List.filter (fun r => tokenPaths (snd r)) auth_routes =
    [("GET", "/auth/ipa/build/:token/*"); ("GET", "/auth/dmg/build/:token/*");
     ("GET", "/auth/apk/build/:token/*"); ("HEAD", "/auth/ipa/build/:token/*");
     ("GET", "/auth/itms/release/:token/*")]%string.
Proof.
  split; [|repeat split].
  - intros next c Hno. unfold auth_middleware.
    by rewrite tokenMiddleware_cases, Hno.
  - intros next c Hturned. unfold auth_middleware in Hturned.
    rewrite tokenMiddleware_cases in Hturned.
    destruct (tokenPaths (echo.Path c)) eqn:Hre; [|done].
    unfold tokenPaths, regexp.alternation in Hre. cbn [existsb] in Hre.
    repeat match type of Hre with
    | (_ || _)%bool = true => apply orb_prop in Hre as [Hre|Hre]
    end;
    try discriminate;
    apply literal_then_some_spec in Hre as (rest & Hpath & Hrest);
    eexists _, rest; (split; [|split; [exact Hpath|exact Hrest]]);
    cbn [In]; auto 6.
Qed.

(** C10 (as amended). The salt of a new server is ten letters of
    [letterRunes], fixed by the next ten values of the random source;
    [refreshCache] never changes it, so within a process [getHash]
    gives one token per path. Across a restart a token stays valid
    exactly when it is the hash under the new salt, as it is whenever
    the new process draws the same ten letters. *)
Theorem salt_lifetime cfg lt ld r s r' :
  NewServer cfg lt ld r = (Ok s, r') ->
  String.length (salt s) = 10%nat /\
  (forall c, In c (list_ascii_of_string (salt s)) -> In c letterRunes) /\
  (forall cc w, salt (this (snd (refreshCache cc w))) = salt (this w)) /\
  (forall cc w id, getHash (this (snd (refreshCache cc w))) id = getHash (this w) id) /\
  (forall cfg2 lt2 ld2 r2 s2 r2',
     NewServer cfg2 lt2 ld2 r2 = (Ok s2, r2') ->
     (forall i, (i < 10)%nat ->
        rand.raw r (rand.drawn r + i)%nat mod 52 =
        rand.raw r2 (rand.drawn r2 + i)%nat mod 52) ->
     salt s2 = salt s /\
     forall next c, tokenPaths (echo.Path c) = true ->
       echo.Param c "token" = getHash s (echo.Param c "*") ->
       auth_middleware s2 next c = next c) /\
  (forall s2 c, tokenPaths (echo.Path c) = true ->
     echo.Param c "token" = getHash s (echo.Param c "*") ->
     ((forall next, auth_middleware s2 next c = next c) <->
        getHash s2 (echo.Param c "*") = getHash s (echo.Param c "*")) /\
     (getHash s2 (echo.Param c "*") <> getHash s (echo.Param c "*") ->
      forall next,
        auth_middleware s2 next c = Some (echo.HTTPError 401 "Unauthorized"))).
Proof.
  intros Hnew. destruct (NewServer_salt _ _ _ _ _ _ Hnew) as [Hsalt _].
  destruct (randStringRunes_spec 10 r) as (Hlen & Hin & _).
  rewrite <- Hsalt in Hlen, Hin.
  split; [exact Hlen|]. split; [exact Hin|].
  split; [apply refreshCache_salt|].
  split; [intros cc w id; unfold getHash; by rewrite refreshCache_salt|].
  split.
  - intros cfg2 lt2 ld2 r2 s2 r2' Hnew2 Hsame.
    destruct (NewServer_salt _ _ _ _ _ _ Hnew2) as [Hsalt2 _].
    assert (Heq : salt s2 = salt s).
    { rewrite Hsalt, Hsalt2. symmetry. by apply randStringRunes_ext. }
    split; [exact Heq|].
    intros next c Hre Htok. unfold auth_middleware.
    rewrite tokenMiddleware_cases, Hre, Htok.
    unfold getHash. rewrite Heq. by rewrite String.eqb_refl.
  - intros s2 c Hre Htok.
    assert (Hno : getHash s2 (echo.Param c "*") <> getHash s (echo.Param c "*") ->
              forall next,
                auth_middleware s2 next c = Some (echo.HTTPError 401 "Unauthorized")).
    { intros Hne next. unfold auth_middleware.
      rewrite tokenMiddleware_cases, Hre, Htok.
      destruct (String.eqb_spec (getHash s (echo.Param c "*"))
                  (getHash s2 (echo.Param c "*"))); [congruence|done]. }
    split; [|exact Hno]. split.
    + intros Hpass.
      destruct (String.eqb_spec (getHash s2 (echo.Param c "*"))
                  (getHash s (echo.Param c "*"))) as [Heq|Hne]; [done|].
      specialize (Hpass (fun _ => None)). rewrite (Hno Hne) in Hpass. discriminate.
    + intros Heq next. unfold auth_middleware.
      rewrite tokenMiddleware_cases, Hre, Htok, Heq. by rewrite String.eqb_refl.
Qed.

(** [salt_lifetime] on the server built from [examples.config0]. *)
Lemma salt_lifetime_witness :
  String.length (salt examples.server1) = 10%nat /\
  (forall c, In c (list_ascii_of_string (salt examples.server1)) -> In c letterRunes) /\
  (forall cc w id,
     getHash (this (snd (refreshCache cc w))) id = getHash (this w) id).
Proof.
  destruct (salt_lifetime examples.config0 None None examples.source1
              examples.server1 examples.source1_after)
    as (Hlen & Hin & _ & Hhash & _).
  - vm_compute. reflexivity.
  - by repeat split.
Defined.

(** C10, as stated, fails: a process restarted on a source that yields
    the same ten letters has the same salt, and accepts the token the
    previous process issued. *)
Lemma restart_keeps_token :
  NewServer examples.config0 None None examples.source1
    = (Ok examples.server1, examples.source1_after) /\
  NewServer examples.config_restart None None examples.source2
    = (Ok examples.server_restarted, examples.source2_after) /\
  getHash examples.server1 "42/app.ipa" = "e1aa4c1b8e8ac00509c81e168e3e3373"%string /\
  auth_middleware examples.server_restarted examples.serve
    (examples.ipa_request "e1aa4c1b8e8ac00509c81e168e3e3373" "42/app.ipa") = None /\
  auth_middleware examples.server_restarted examples.serve
    (examples.ipa_request "e1aa4c1b8e8ac00509c81e168e3e3374" "42/app.ipa")
    = Some (echo.HTTPError 401 "Unauthorized").
Proof. vm_compute. by repeat split. Qed.
End token_claims.

(** * Properties of the insertion sort *)
Module sort_facts.
Import sort.

Section insertion.
Context {A : Type} (less : A -> A -> bool).
Hypothesis Hless : transitive_ordering less.

Lemma sink_perm x r : Permutation (x :: r) (sink less x r).
Proof.
  induction r as [|y r IH]; simpl; [done|].
  destruct (less x y); [|done].
  rewrite perm_swap. by constructor.
Qed.

Lemma sink_sorted x r : prefix_sorted less r -> prefix_sorted less (sink less x r).
Proof.
  destruct Hless as [Htrans Hincomp].
  induction r as [|y r IH]; intros Hr; simpl; [by split|].
  destruct Hr as [Hy Hr]. destruct (less x y) eqn:Hxy.
  - split; [|by apply IH].
    intros a Ha. apply (Permutation_in _ (Permutation_sym (sink_perm x r))) in Ha.
    destruct Ha as [<-|Ha]; [by left|by apply Hy].
  - split; [|by split].
    intros a [<-|Ha]; [by right|].
    destruct (Hy a Ha) as [Hay|Hya].
    + right. destruct (less x a) eqn:Hxa; [|done].
      by rewrite (Htrans x a y Hxa Hay) in Hxy.
    + right. by apply (Hincomp x y a).
Qed.

Lemma foldl_sink l : forall r,
  prefix_sorted less r ->
  prefix_sorted less (foldl (fun prefix x => sink less x prefix) r l) /\
  Permutation (rev l ++ r) (foldl (fun prefix x => sink less x prefix) r l).
Proof.
  induction l as [|x l IH]; intros r Hr; simpl; [done|].
  destruct (IH (sink less x r) (sink_sorted x r Hr)) as [Hs Hp].
  split; [done|]. rewrite <- Hp, <- app_assoc. simpl.
  apply Permutation_app_head, sink_perm.
Qed.

Lemma prefix_sorted_in_order r : prefix_sorted less r -> in_order less (rev r).
Proof.
  induction r as [|y r IH]; intros Hr i j a b Hij Ha Hb.
  - by destruct i.
  - destruct Hr as [Hy Hr]. simpl in Ha, Hb.
    assert (Hj : (j < length (rev r ++ [y]))%nat) by (by eapply lookup_lt_Some).
    rewrite length_app in Hj. simpl in Hj.
    rewrite lookup_app_l in Ha by lia.
    destruct (decide (j = length (rev r))) as [->|Hne].
    + rewrite list_lookup_middle in Hb by done. injection Hb as <-.
      apply Hy. apply in_rev, list_elem_of_In. by eapply list_elem_of_lookup_2.
    + rewrite lookup_app_l in Hb by lia. by eapply (IH Hr i j).
Qed.

Lemma insertionSort_sorts l :
  Permutation l (insertionSort less l) /\ in_order less (insertionSort less l).
Proof.
  unfold insertionSort.
  destruct (foldl_sink l [] I) as [Hs Hp]. split.
  - rewrite <- Permutation_rev, <- Hp, app_nil_r. apply Permutation_rev.
  - by apply prefix_sorted_in_order.
Qed.
End insertion.

(** The insertion sort meets the contract of [sort.Slice]. *)
Lemma insertionSort_meets_contract {A} : sorts (@insertionSort A).
Proof. intros less l Hless. by apply insertionSort_sorts. Qed.
End sort_facts.

(** * Properties of the build listing *)
Module query_facts.
Import yolopb yolosvc.

(** The comparison of [BuildList] is a transitive ordering in the sense
    of the library, though not an irreflexive one: two builds without a
    creation time are each less than the other. *)
Lemma less_transitive : sort.transitive_ordering less.
Proof.
  split; intros a b c; unfold less, time.After;
    destruct (CreatedAt a), (CreatedAt b), (CreatedAt c); try done; lia.
Qed.

Lemma cleanupBuild_spec X salt K h b h' b' :
  cleanupBuild X salt K h b = Ok (h', b') ->
  CreatedAt b' = CreatedAt b /\ BuildID b' = BuildID b /\
  (0 < K -> spec.keeps_kinds X ->
     (forall p, Kind (h' p) = Kind (h p)) /\
     (forall p, In p (HasArtifacts b') -> Kind (h' p) = K)) /\
  (K <= 0 -> b' = b).
Proof.
  unfold cleanupBuild.
  destruct (Build_Cleanup X h b) as [h1 build] eqn:Hclean.
  destruct (Build_AddSignedURLs X salt h1 _) as [h2|e] eqn:Hsign; [|discriminate].
  intros Heq. injection Heq as <- <-.
  destruct (Z.ltb_spec 0 K) as [Hpos|Hneg].
  - split; [done|]. split; [done|]. split; [|lia].
    intros _ [Hc Hs]. split.
    + intros p. rewrite (Hs _ _ _ _ Hsign p).
      specialize (Hc h b p). by rewrite Hclean in Hc.
    + intros p Hp. simpl in Hp. apply filter_In in Hp as [_ Hk].
      rewrite (Hs _ _ _ _ Hsign p). lia.
  - split; [done|]. split; [done|]. split; [lia|done].
Qed.

Lemma cleanupBuilds_spec X salt K : forall bs h h' bs',
  cleanupBuilds X salt K h bs = Ok (h', bs') ->
  map CreatedAt bs' = map CreatedAt bs /\
  (0 < K -> spec.keeps_kinds X ->
     (forall p, Kind (h' p) = Kind (h p)) /\
     (forall b p, In b bs' -> In p (HasArtifacts b) -> Kind (h' p) = K)).
Proof.
  induction bs as [|b bs IH]; intros h h' bs' Hrun; simpl in Hrun.
  - injection Hrun as <- <-. split; [done|]. intros _ _. split; [done|]. by intros b p [].
  - destruct (cleanupBuild X salt K h b) as [[h1 b1]|e] eqn:Hone; [|discriminate].
    destruct (cleanupBuilds X salt K h1 bs) as [[h2 rest]|e] eqn:Hrest; [|discriminate].
    injection Hrun as <- <-.
    destruct (cleanupBuild_spec _ _ _ _ _ _ _ Hone) as (Hc & _ & Hk1 & _).
    destruct (IH _ _ _ Hrest) as [Hcs Hk2].
    split; [simpl; by rewrite Hc, Hcs|].
    intros Hpos Hkeep.
    destruct (Hk1 Hpos Hkeep) as [Hst1 Hin1]. destruct (Hk2 Hpos Hkeep) as [Hst2 Hin2].
    split.
    + intros p. by rewrite Hst2, Hst1.
    + intros b' p [<-|Hb'] Hp; [|by eapply Hin2].
      rewrite Hst2. by apply Hin1.
Qed.
End query_facts.

(** * The build listing and the download: the claims *)
Module yolosvc_claims.
Import yolopb yolosvc query_facts.

(** C2 (as amended). In the builds that [BuildList] returns, a build
    created later than another stands before it, and a build with no
    creation time stands after every build that has one. *)
Theorem BuildList_order X svc K out :
  sort.sorts (sort_Slice X) ->
  resp_Builds (BuildList X svc K) = Ok out ->
  forall i j A B, out !! i = Some A -> out !! j = Some B ->
    (forall ta tb, CreatedAt A = Some ta -> CreatedAt B = Some tb ->
       tb < ta -> (i < j)%nat) /\
    (CreatedAt A = None -> is_Some (CreatedAt B) -> (j < i)%nat).
Proof.
  intros Hsort Hrun i j A B HA HB.
  unfold BuildList in Hrun.
  destruct (LoadIteratorToDepth _ _ _) as [[h0 builds]|e]; [|discriminate].
  destruct (cleanupBuilds _ _ _ _ _) as [[h1 builds']|e]; [|discriminate].
  injection Hrun as <-.
  destruct (Hsort less builds' less_transitive) as [_ Hord].
  split.
  - intros ta tb Ha Hb Hlt.
    destruct (lt_eq_lt_dec i j) as [[?| ->]|Hji]; [done| |].
    + rewrite HA in HB. injection HB as <-. rewrite Ha in Hb. injection Hb as <-. lia.
    + exfalso. destruct (Hord j i B A Hji HB HA) as [H|H];
        unfold less, time.After in H; rewrite Ha, Hb in H; lia.
  - intros Ha [tb Hb].
    destruct (lt_eq_lt_dec i j) as [[Hij| ->]|?]; [| |done].
    + exfalso. destruct (Hord i j A B Hij HA HB) as [H|H];
        unfold less in H; rewrite Ha, ?Hb in H; discriminate.
    + rewrite HA in HB. injection HB as <-. congruence.
Qed.

(** [BuildList_order] on a store of three builds, sorted by the
    insertion sort. *)
Lemma BuildList_order_witness :
  (forall ta tb, CreatedAt examples.build_new = Some ta ->
     CreatedAt examples.build_old = Some tb -> tb < ta -> (0 < 1)%nat) /\
  (CreatedAt examples.build_undated = None ->
     is_Some (CreatedAt examples.build_old) -> (1 < 2)%nat).
Proof.
  split.
  - apply (BuildList_order examples.extern0 examples.service0 0
             [examples.build_new; examples.build_old; examples.build_undated]
             sort_facts.insertionSort_meets_contract);
      vm_compute; reflexivity.
  - apply (BuildList_order examples.extern0 examples.service0 0
             [examples.build_new; examples.build_old; examples.build_undated]
             sort_facts.insertionSort_meets_contract);
      vm_compute; reflexivity.
Defined.

(** C2, as stated, fails: of a build with no creation time and one with
    a creation time, [BuildList] returns the dated one first. *)
Lemma undated_build_sorts_last :
  LoadIteratorToDepth examples.store0 (buildsPath 0) 1
    = Ok (examples.artifact_at,
          [examples.build_undated; examples.build_old; examples.build_new]) /\
  resp_Builds (BuildList examples.extern0 examples.service0 0)
    = Ok [examples.build_new; examples.build_old; examples.build_undated] /\
  CreatedAt examples.build_undated = None /\
  CreatedAt examples.build_old = Some 5000.
Proof. vm_compute. by repeat split. Qed.

(** C4. With a kind filter [K > 0], and collaborators that leave the
    kinds of artifacts alone, every artifact of every build that
    [BuildList] returns has kind [K]: the clean-up loop keeps of each
    build the artifacts of kind [K], in their order, after a store
    query that asks for builds with an artifact of kind [K]. *)
Theorem BuildList_filter X svc K :
  0 < K ->
  spec.keeps_kinds X ->
  (forall l, Permutation l (sort_Slice X less l)) ->
  match BuildList X svc K with
  | Ok (h, out) =>
      forall b p, In b out -> In p (HasArtifacts b) -> Kind (h p) = K
  | Err _ => True
  end /\
  (forall h b h' b', cleanupBuild X (authSalt svc) K h b = Ok (h', b') ->
     HasArtifacts b' =
       List.filter (fun p => Kind (fst (Build_Cleanup X h b) p) =? K)
                   (HasArtifacts (snd (Build_Cleanup X h b)))) /\
  buildsPath K =
    cayley.Limit
      (cayley.HasPath
         (cayley.Has (cayley.StartPath []) (cayley.IRI "rdf:type")
                     (cayley.IRI "yolo:Build"))
         (cayley.Has (cayley.In cayley.StartMorphism (cayley.IRI "schema:hasBuild"))
                     (cayley.IRI "schema:kind") (cayley.Int K)))
      300.
Proof.
  intros Hpos Hkeep Hperm. split; [|split].
  - unfold BuildList.
    destruct (LoadIteratorToDepth _ _ _) as [[h0 builds]|e]; [|done].
    destruct (cleanupBuilds _ _ _ _ _) as [[h1 builds']|e] eqn:Hrun; [|done].
    destruct (cleanupBuilds_spec _ _ _ _ _ _ _ Hrun) as [_ Hk].
    destruct (Hk Hpos Hkeep) as [_ Hin].
    intros b p Hb Hp. apply (Hin b p); [|done].
    by apply (Permutation_in _ (Permutation_sym (Hperm builds'))).
  - intros h b h' b'. unfold cleanupBuild.
    destruct (Build_Cleanup X h b) as [h1 build].
    destruct (Build_AddSignedURLs _ _ _ _); [|discriminate].
    intros Heq. injection Heq as <- <-.
    destruct (Z.ltb_spec 0 K); [done|lia].
  - unfold buildsPath. destruct (Z.ltb_spec 0 K); [done|lia].
Qed.

(** [BuildList_filter] on a store of three builds, for the kind 1. *)
Lemma BuildList_filter_witness :
  match BuildList examples.extern0 examples.service0 1 with
  | Ok (h, out) =>
      forall b p, In b out -> In p (HasArtifacts b) -> Kind (h p) = 1
  | Err _ => True
  end.
Proof.
  apply (BuildList_filter examples.extern0 examples.service0 1).
  - lia.
  - split.
    + intros h b p. reflexivity.
    + intros salt h b h' Heq p. simpl in Heq. injection Heq as <-.
      by destruct (bool_decide _).
  - intros l. apply sort_facts.insertionSort_meets_contract, less_transitive.
Defined.

(** C8 (as amended). The download of an artifact either is the fetch of
    the backend its driver names, or fails before any backend is
    called: with "buildkite token required" for a Buildkite artifact
    when there is no Buildkite client, with "download not supported for
    this driver" for a driver other than Buildkite and Bintray; the two
    messages differ, and [ArtifactDownloader] answers an error with the
    status 500 (when no status was written yet) and the message in the
    body. A download without error is what the called backend did,
    whatever it wrote. *)
Theorem download_outcomes X svc artifact w :
  (Driver artifact = Driver_Buildkite -> bkc svc = None ->
     download X svc artifact w = (w, Some "buildkite token required"%string)) /\
  (Driver artifact <> Driver_Buildkite -> Driver artifact <> Driver_Bintray ->
     download X svc artifact w
       = (w, Some "download not supported for this driver"%string)) /\
  "buildkite token required"%string <> "download not supported for this driver"%string /\
  (forall client, Driver artifact = Driver_Buildkite -> bkc svc = Some client ->
     download X svc artifact w = client (DownloadURL artifact) w) /\
  (Driver artifact = Driver_Bintray ->
     download X svc artifact w = bintray_DownloadContent X (DownloadURL artifact) w) /\
  (forall w', download X svc artifact w = (w', None) ->
     exists backend,
       (Driver artifact = Driver_Buildkite /\ bkc svc = Some backend \/
        Driver artifact = Driver_Bintray /\ backend = bintray_DownloadContent X) /\
       backend (DownloadURL artifact) w = (w', None)) /\
  (forall id loaded w0 w' e,
     LoadPathTo (db svc) (artifactPath id) = Ok loaded ->
     artifact = Artifact_Cleanup X loaded ->
     w = downloadHeaders artifact w0 ->
     download X svc artifact w = (w', Some e) ->
     ArtifactDownloader X svc id w0
       = http.Error (String.append "err: " e) http.StatusInternalServerError w' /\
     (http.Status w' = None ->
      http.Status (ArtifactDownloader X svc id w0) = Some 500) /\
     http.Body (ArtifactDownloader X svc id w0)
       = String.append (http.Body w')
           (String.append (String.append "err: " e) (String "010"%char EmptyString))).
Proof.
  split; [|split; [|split; [|split; [|split; [|split]]]]]; unfold download.
  - intros Hd Hc. by rewrite Hd, Hc.
  - intros H1 H2. by destruct (Driver artifact).
  - discriminate.
  - intros client Hd Hc. by rewrite Hd, Hc.
  - intros Hd. by rewrite Hd.
  - intros w' Hrun. destruct (Driver artifact) eqn:Hd; try discriminate.
    + destruct (bkc svc) as [client|] eqn:Hc; [|discriminate].
      exists client. split; [left; by split|done].
    + exists (bintray_DownloadContent X). split; [right; by split|done].
  - intros id loaded w0 w' e Hload -> -> Hrun.
    fold (download X svc (Artifact_Cleanup X loaded)
            (downloadHeaders (Artifact_Cleanup X loaded) w0)) in Hrun.
    unfold ArtifactDownloader. rewrite Hload, Hrun.
    split; [done|]. split; [|done].
    intros Hs. simpl. by rewrite Hs.
Qed.

(** C8, as stated, fails: a Buildkite artifact of no bytes is answered
    without an error, with nothing written to the body. *)
Lemma empty_download_succeeds :
  Driver (examples.artifact_at O) = Driver_Buildkite /\
  snd (download examples.extern0 examples.service0 (examples.artifact_at O)
         (downloadHeaders (examples.artifact_at O) examples.writer0)) = None /\
  http.Body (ArtifactDownloader examples.extern0 examples.service0 "artifact-0"
               examples.writer0) = EmptyString /\
  http.Status (ArtifactDownloader examples.extern0 examples.service0 "artifact-0"
                 examples.writer0) = None.
Proof. vm_compute. by repeat split. Qed.
End yolosvc_claims.

(** * More on the build cache *)
Module cache_facts.
Import circleci server spec sync_facts.

Lemma merge_keyed bs : forall m, keyed m -> keyed (merge bs m).
Proof.
  induction bs as [|b bs IH]; intros m Hm; [done|].
  change (merge (b :: bs) m) with (merge bs (<[BuildNum b := b]> m)).
  apply IH. intros k b' Hk.
  destruct (decide (BuildNum b = k)) as [<-|Hne].
  - rewrite lookup_insert_eq in Hk. by injection Hk as <-.
  - rewrite lookup_insert_ne in Hk by done. by apply Hm.
Qed.

Lemma merge_lookup_other bs k : forall m,
  (forall b, b ∈ bs -> BuildNum b <> k) -> merge bs m !! k = m !! k.
Proof.
  induction bs as [|b bs IH]; intros m Hk; [done|].
  change (merge (b :: bs) m) with (merge bs (<[BuildNum b := b]> m)).
  rewrite IH.
  - apply lookup_insert_ne, Hk, elem_of_cons. by left.
  - intros b' Hb'. apply Hk, elem_of_cons. by right.
Qed.

Lemma merge_lookup_is_Some bs k : forall m,
  is_Some (m !! k) -> is_Some (merge bs m !! k).
Proof.
  induction bs as [|b bs IH]; intros m Hk; [done|].
  change (merge (b :: bs) m) with (merge bs (<[BuildNum b := b]> m)).
  apply IH. destruct (decide (BuildNum b = k)) as [<-|Hne].
  - rewrite lookup_insert_eq. by eexists.
  - by rewrite lookup_insert_ne.
Qed.

(** A walk with no update time after [t] has no record newer than [t]. *)
Lemma filter_nil_no_newer walk t :
  (forall b u, b ∈ walk -> updateTime b = Some u -> u <= t) ->
  List.filter (newer t) walk = [].
Proof.
  induction walk as [|b walk IH]; intros Hall; [done|].
  simpl. assert (Hn : newer t b = false).
  { unfold newer, time.After. destruct (updateTime b) as [u|] eqn:Hu; [|done].
    pose proof (Hall b u (list_elem_of_here _ _) Hu). lia. }
  rewrite Hn. apply IH. intros b' u Hb. apply Hall. by apply list_elem_of_further.
Qed.

(** With no record after [t], the running cursor stays at [t]. *)
Lemma foldl_bump_fixed walk t :
  List.filter (newer t) walk = [] -> foldl bump t walk = t.
Proof.
  intros Hnone.
  destruct (foldl_step_greatest updateTime bump bump_eq walk t) as [_ [Heq|(b & Hb & Hu)]];
    [done|].
  pose proof (foldl_step_le updateTime bump bump_eq walk t) as Hle.
  assert (Hn : newer t b = false).
  { destruct (newer t b) eqn:Hn; [|done].
    assert (In b (List.filter (newer t) walk))
      by (apply filter_In; split; [by apply list_elem_of_In|done]).
    rewrite Hnone in H. by destruct H. }
  unfold newer, time.After in Hn. rewrite Hu in Hn. lia.
Qed.

(** A warm cycle on a reachable state whose fetch succeeds. *)
Lemma refresh_warm_ok cc w bs l o :
  time.IsZero (mostRecentBuild (cache (this w))) = false ->
  builds (cache (this w)) = Some l -> heap w !! l = Some o ->
  cc 100 0 = Ok bs ->
  exists w',
    refreshCache cc w = (RetNil, w') /\
    builds (cache (this w')) = Some l /\
    heap w' !! l =
      Some (merge (List.filter (newer (mostRecentBuild (cache (this w)))) (rev bs)) o) /\
    mostRecentBuild (cache (this w')) =
      foldl bump (mostRecentBuild (cache (this w))) (rev bs) /\
    requests w' = requests w ++ [(100, 0)] /\
    (List.filter (newer (mostRecentBuild (cache (this w)))) (rev bs) = [] ->
     this w' = this w).
Proof.
  intros Hz Hl Ho Hcc.
  set (previous := mostRecentBuild (cache (this w))).
  set (news := List.filter (newer previous) (rev bs)).
  set (h0 := <[fresh (dom (heap w)) := ∅]> (heap w)).
  assert (Ho0 : h0 !! l = Some o) by (by apply lookup_make).
  assert (Hfold : warmLoop (Some l) previous bs h0 =
            {| wheap := Some (<[l := merge news o]> h0);
               wmrb := foldl bump previous (rev bs);
               changed := length news |}).
  { unfold warmLoop.
    erewrite (warmLoop_fold l _ (rev bs) _ h0 o); [|reflexivity|exact Ho0].
    reflexivity. }
  rewrite (refreshCache_warm cc w Hz), Hcc. cbv zeta. rewrite Hl.
  fold previous. fold h0. rewrite Hfold. cbn [wheap changed wmrb].
  destruct news as [|b0 news'] eqn:Hn.
  - eexists. split; [reflexivity|]. simpl.
    split; [done|]. split; [by rewrite lookup_insert_eq|].
    split; [|by split].
    symmetry. by apply foldl_bump_fixed.
  - eexists. split; [reflexivity|]. simpl.
    split; [done|]. split; [by rewrite lookup_insert_eq|]. by repeat split.
Qed.

(** The cursor never moves back, whatever the cycle does. *)
Lemma refreshCache_cursor_le cc w :
  mostRecentBuild (cache (this w)) <= mostRecentBuild (cache (this (snd (refreshCache cc w)))).
Proof.
  destruct (time.IsZero (mostRecentBuild (cache (this w)))) eqn:Hz.
  - rewrite (refreshCache_cold cc w Hz).
    match goal with |- context [coldLoop cc 20 0 ?w0 ?lv0] =>
      pose proof (coldLoop_cursor cc 20 0 w0 lv0) as H;
      destruct (coldLoop cc 20 0 w0 lv0) as [[r w']|[w' lv']]
    end; simpl in *.
    + destruct H as [[_ ->]|(_ & _ & ->)]; lia.
    + by destruct H as [H _].
  - rewrite (refreshCache_warm cc w Hz). cbv zeta.
    destruct (cc 100 0) as [bs|e]; [|simpl; lia].
    unfold warmLoop.
    match goal with |- context [foldl ?f ?a ?l] =>
      destruct (warmLoop_cursor (builds (cache (this w)))
                  (mostRecentBuild (cache (this w))) l a) as [Hm _];
      destruct (foldl f a l) as [oh t c] eqn:Hfold
    end.
    simpl in Hm. simpl. destruct oh as [h|]; [|simpl; lia].
    destruct (c =? 0)%nat; simpl; [lia|].
    rewrite Hm. apply (foldl_step_le updateTime bump bump_eq).
Qed.

(** From a reachable state no cycle panics. *)
Lemma refreshCache_returns cc w :
  reachable w -> fst (refreshCache cc w) <> RetPanic.
Proof.
  intros Hreach.
  destruct (time.IsZero (mostRecentBuild (cache (this w)))) eqn:Hz.
  - destruct (cold_cases cc) as [[n Hn]|(k & e & Hk & Hfull & Herr)].
    + by destruct (refresh_cold_ok cc w n Hz Hn) as (w' & -> & _).
    + by destruct (refresh_cold_err cc w k e Hz Hk Hfull Herr) as (w' & -> & _).
  - destruct (Hreach Hz) as (l & o & Hl & Ho).
    destruct (cc 100 0) as [bs|e] eqn:Hcc.
    + by destruct (refresh_warm_ok cc w bs l o Hz Hl Ho Hcc) as (w' & -> & _).
    + rewrite (refreshCache_warm cc w Hz), Hcc. discriminate.
Qed.

Lemma keyed_empty : keyed ∅.
Proof. intros k b H. by rewrite lookup_empty in H. Qed.

(** The published map stays keyed by build number. *)
Lemma refreshCache_keeps_keyed cc w :
  reachable w -> keyed (published w) -> keyed (published (snd (refreshCache cc w))).
Proof.
  intros Hreach Hkeyed.
  destruct (time.IsZero (mostRecentBuild (cache (this w)))) eqn:Hz.
  - destruct (cold_cases cc) as [[n Hn]|(k & e & Hk & Hfull & Herr)].
    + destruct (refresh_cold_ok cc w n Hz Hn) as (w' & -> & Hp & _).
      simpl. rewrite Hp. apply merge_keyed, keyed_empty.
    + destruct (refresh_cold_err cc w k e Hz Hk Hfull Herr) as (w' & -> & _ & Hp & _).
      simpl. rewrite Hp. destruct k; [done|]. apply merge_keyed, keyed_empty.
  - destruct (Hreach Hz) as (l & o & Hl & Ho).
    assert (Hpub : published w = o)
      by (unfold published; rewrite Hl; simpl; by rewrite Ho).
    destruct (cc 100 0) as [bs|e] eqn:Hcc.
    + destruct (refresh_warm_ok cc w bs l o Hz Hl Ho Hcc) as (w' & -> & Hl' & Ho' & _).
      simpl. unfold published. rewrite Hl'. simpl. rewrite Ho'. simpl.
      apply merge_keyed. by rewrite <- Hpub.
    + rewrite (refreshCache_warm cc w Hz), Hcc. cbv zeta. simpl.
      unfold published. simpl. rewrite Hl. simpl.
      rewrite (lookup_make _ _ _ Ho). simpl. by rewrite <- Hpub.
Qed.

(** *** What a cycle writes *)

Lemma mapassign_frame m b h h' l0 :
  mapassign m b h = Some h' -> m <> Some l0 -> h' !! l0 = h !! l0.
Proof.
  unfold mapassign. destruct m as [l|]; [|discriminate].
  destruct (h !! l); [|discriminate].
  intros Heq Hne. injection Heq as <-. apply lookup_insert_ne. congruence.
Qed.

Lemma record_all_frame m l0 bs : forall h h',
  record_all m bs h = Some h' -> m <> Some l0 -> h' !! l0 = h !! l0.
Proof.
  induction bs as [|b bs IH]; intros h h' Hrun Hne; simpl in Hrun.
  - by injection Hrun as <-.
  - destruct (mapassign m b h) as [h1|] eqn:Hone; [|discriminate].
    rewrite (IH _ _ Hrun Hne). by eapply mapassign_frame.
Qed.

(** The cold loop writes to the map of [allBuilds] only. *)
Lemma coldLoop_frame cc l0 n : forall page w lv,
  allBuilds lv <> Some l0 ->
  match coldLoop cc n page w lv with
  | inl (_, w') => heap w' !! l0 = heap w !! l0
  | inr (w', lv') => heap w' !! l0 = heap w !! l0 /\ allBuilds lv' = allBuilds lv
  end.
Proof.
  induction n as [|n IH]; intros page w lv Hne; simpl; [done|].
  unfold coldPage. destruct (cc 100 (page * 100)) as [bs|e]; [|done].
  destruct (record_all (allBuilds lv) bs _) as [h|] eqn:Hrec; [|done].
  pose proof (record_all_frame _ l0 _ _ _ Hrec Hne) as Hframe. simpl in Hframe.
  destruct (Z.of_nat (length bs) <? 100); [done|].
  match goal with |- context [coldLoop cc n ?p ?w1 ?lv1] =>
    pose proof (IH p w1 lv1 Hne) as Hrest;
    destruct (coldLoop cc n p w1 lv1) as [[r w']|[w' lv']]
  end; simpl in Hrest.
  - by rewrite Hrest.
  - destruct Hrest as [-> ->]. by split.
Qed.

(** The warm loop writes to its map only. *)
Lemma warm_fold_frame m previous l0 walk : forall a h',
  m <> Some l0 ->
  wheap (foldl (warmStep m previous) a walk) = Some h' ->
  exists h, wheap a = Some h /\ h' !! l0 = h !! l0.
Proof.
  induction walk as [|b walk IH]; intros a h' Hne Hrun; simpl in Hrun.
  - by exists h'.
  - destruct (IH _ _ Hne Hrun) as (h1 & Hstep & Hsame).
    unfold warmStep in Hstep. destruct (updateTime b) as [u|]; [|by exists h1].
    destruct (time.After u previous); [|by exists h1].
    simpl in Hstep. destruct (wheap a) as [h|]; [|discriminate]. simpl in Hstep.
    exists h. split; [done|]. rewrite Hsame. by eapply mapassign_frame.
Qed.
End cache_facts.

(** * The sorted view *)
Module sorted_facts.
Import circleci server spec.

Lemma foldl_append {A B} (f : A -> B) l : forall acc,
  foldl (fun acc x => acc ++ [f x]) acc l = acc ++ map f l.
Proof.
  induction l as [|x l IH]; intros acc; simpl; [by rewrite app_nil_r|].
  by rewrite IH, <- app_assoc.
Qed.

Lemma Sorted_eq sortf range h m :
  Sorted sortf range h m =
    map (fun k => deref h m !! k) (sortf (fun a b => b <? a) range).
Proof.
  unfold Sorted.
  rewrite (foldl_append (fun k : Z => k) range []). simpl. rewrite map_id.
  by rewrite (foldl_append (fun k => deref h m !! k)).
Qed.

(** The builds under a list of keys that the map holds. *)
Lemma present_builds (o : gmap Z Build) ks :
  (forall k, k ∈ ks -> is_Some (o !! k)) ->
  exists bs, Forall2 (fun k b => o !! k = Some b) ks bs.
Proof.
  induction ks as [|k ks IH]; intros Hall; [by exists []|].
  destruct (Hall k) as [b Hb]; [apply elem_of_cons; by left|].
  destruct IH as [bs Hbs]; [intros k' Hk'; apply Hall, elem_of_cons; by right|].
  exists (b :: bs). by constructor.
Qed.

Lemma present_builds_map (o : gmap Z Build) ks bs :
  Forall2 (fun k b => o !! k = Some b) ks bs ->
  map (fun k => o !! k) ks = map Some bs.
Proof. induction 1 as [|k b ks bs Hk _ IH]; simpl; [done|]. by rewrite Hk, IH. Qed.
End sorted_facts.

(** * The build cache: further properties *)
Module cache_extras.
Import circleci server spec sync_facts cache_facts sorted_facts.

Lemma warm_world_reachable : reachable examples.warm_world.
Proof. intros _. exists 1%positive. eexists. split; reflexivity. Qed.

Lemma warm_world_keyed : keyed (published examples.warm_world).
Proof.
  unfold published, deref. cbn -[merge]. rewrite lookup_singleton_eq.
  apply merge_keyed, keyed_empty.
Qed.

(** X1. From a state a process can reach, [refreshCache] never panics
    (it never assigns into the nil map), and the state it leaves can be
    reached again. *)
Theorem refreshCache_never_panics cc w :
  reachable w ->
  fst (refreshCache cc w) <> RetPanic /\ reachable (snd (refreshCache cc w)).
Proof.
  intros Hreach. split.
  - by apply refreshCache_returns.
  - by apply refreshCache_reachable.
Qed.

(** [refreshCache_never_panics] on a warm cache; on a state with a
    cursor and no map, which no process reaches, the same upstream
    makes the cycle panic. *)
Lemma refreshCache_never_panics_witness :
  (fst (refreshCache examples.upstream_warm examples.warm_world) <> RetPanic /\
   reachable (snd (refreshCache examples.upstream_warm examples.warm_world))) /\
  fst (refreshCache examples.upstream_warm examples.torn_world) = RetPanic.
Proof.
  split.
  - apply (refreshCache_never_panics examples.upstream_warm examples.warm_world).
    apply warm_world_reachable.
  - vm_compute. reflexivity.
Defined.

(** X2. Every cycle, failed or not, keeps the published map keyed by
    build number: each build is found under its own [BuildNum]. *)
Theorem published_stays_keyed cc w :
  reachable w ->
  keyed (published w) ->
  keyed (published (snd (refreshCache cc w))).
Proof. apply refreshCache_keeps_keyed. Qed.

(** [published_stays_keyed] on a concrete input. *)
Lemma published_stays_keyed_witness :
  keyed (published (snd (refreshCache examples.upstream_warm examples.warm_world))).
Proof.
  apply (published_stays_keyed examples.upstream_warm examples.warm_world).
  - apply warm_world_reachable.
  - apply warm_world_keyed.
Defined.

(** X3. [Sorted] returns every build of a keyed map exactly once, none
    of them nil, in strictly decreasing order of build number, whatever
    the order in which [range] visits the keys. *)
Theorem Sorted_descending sortf range h m :
  sort.sorts sortf ->
  range ≡ₚ (map_to_list (deref h m)).*1 ->
  keyed (deref h m) ->
  exists bs,
    Sorted sortf range h m = map Some bs /\
    length bs = size (deref h m) /\
    (forall b, b ∈ bs <-> exists k, deref h m !! k = Some b) /\
    (forall i j a b, (i < j)%nat -> bs !! i = Some a -> bs !! j = Some b ->
       BuildNum b < BuildNum a).
Proof.
  intros Hsort Hrange Hkeyed. set (o := deref h m) in *.
  rewrite Sorted_eq. fold o.
  destruct (Hsort (fun a b : Z => b <? a) range) as [Hperm Hord].
  { split; intros a b c; lia. }
  set (ks := sortf (fun a b : Z => b <? a) range) in *.
  assert (Hks : ks ≡ₚ (map_to_list o).*1) by (by rewrite <- Hperm).
  assert (Hin : forall k, k ∈ ks <-> is_Some (o !! k)).
  { intros k. rewrite Hks, list_elem_of_fmap. split.
    - intros ([k' b] & -> & Hkb). apply elem_of_map_to_list in Hkb. by exists b.
    - intros [b Hb]. exists (k, b). split; [done|]. by apply elem_of_map_to_list. }
  assert (Hnd : NoDup ks) by (rewrite Hks; apply NoDup_fst_map_to_list).
  destruct (present_builds o ks) as [bs Hbs]; [intros k Hk; by apply Hin|].
  exists bs. split; [by apply present_builds_map|]. split; [|split].
  - rewrite <- (Forall2_length _ _ _ Hbs), Hks, length_fmap.
    apply length_map_to_list.
  - intros b. split.
    + intros Hb. apply list_elem_of_lookup_1 in Hb as [i Hi].
      destruct (Forall2_lookup_r _ _ _ _ _ Hbs Hi) as (k & _ & Hk). by exists k.
    + intros [k Hk].
      assert (Hkin : k ∈ ks) by (apply Hin; by exists b).
      apply list_elem_of_lookup_1 in Hkin as [i Hi].
      destruct (Forall2_lookup_l _ _ _ _ _ Hbs Hi) as (b' & Hb' & Hk').
      rewrite Hk in Hk'. injection Hk' as ->. by eapply list_elem_of_lookup_2.
  - intros i j a b Hij Ha Hb.
    destruct (Forall2_lookup_r _ _ _ _ _ Hbs Ha) as (ka & Hka & Hoa).
    destruct (Forall2_lookup_r _ _ _ _ _ Hbs Hb) as (kb & Hkb & Hob).
    rewrite (Hkeyed _ _ Hoa), (Hkeyed _ _ Hob).
    assert (ka <> kb).
    { intros ->. pose proof (NoDup_lookup _ _ _ _ Hnd Hka Hkb). lia. }
    destruct (Hord i j ka kb Hij Hka Hkb); lia.
Qed.

(** [Sorted_descending] on a concrete input. *)
Lemma Sorted_descending_witness :
  exists bs,
    Sorted sort.insertionSort
      (map_to_list (published examples.warm_world)).*1
      (heap examples.warm_world) (builds (cache (this examples.warm_world)))
      = map Some bs /\
    length bs = size (published examples.warm_world) /\
    (forall b, b ∈ bs <-> exists k, published examples.warm_world !! k = Some b) /\
    (forall i j a b, (i < j)%nat -> bs !! i = Some a -> bs !! j = Some b ->
       BuildNum b < BuildNum a).
Proof.
  apply (Sorted_descending sort.insertionSort
           (map_to_list (published examples.warm_world)).*1
           (heap examples.warm_world) (builds (cache (this examples.warm_world)))).
  - apply sort_facts.insertionSort_meets_contract.
  - reflexivity.
  - apply warm_world_keyed.
Defined.

(** X4. A warm cycle never loses a build: every build number published
    before the cycle is published after it, and a build whose number is
    not on the fetched page is left as it was. *)
Theorem warm_cycle_keeps_builds cc w :
  time.IsZero (mostRecentBuild (cache (this w))) = false ->
  reachable w ->
  (forall k, is_Some (published w !! k) ->
     is_Some (published (snd (refreshCache cc w)) !! k)) /\
  (forall bs k, cc 100 0 = Ok bs -> (forall b, b ∈ bs -> BuildNum b <> k) ->
     published (snd (refreshCache cc w)) !! k = published w !! k).
Proof.
  intros Hz Hreach. destruct (Hreach Hz) as (l & o & Hl & Ho).
  assert (Hpub : published w = o)
    by (unfold published; rewrite Hl; simpl; by rewrite Ho).
  destruct (cc 100 0) as [bs|e] eqn:Hcc.
  - destruct (refresh_warm_ok cc w bs l o Hz Hl Ho Hcc) as (w' & -> & Hl' & Ho' & _).
    assert (Hpub' : published w' = merge
              (List.filter (newer (mostRecentBuild (cache (this w)))) (rev bs)) o)
      by (unfold published; rewrite Hl'; simpl; by rewrite Ho').
    simpl. rewrite Hpub', Hpub. split.
    + intros k. apply merge_lookup_is_Some.
    + intros bs' k Heq Hk. injection Heq as <-. apply merge_lookup_other.
      intros b Hb. apply Hk.
      apply list_elem_of_In, filter_In in Hb as [Hb _].
      by apply elem_of_rev, list_elem_of_In.
  - rewrite (refreshCache_warm cc w Hz), Hcc. cbv zeta. simpl.
    assert (Hsame : published (with_request (100, 0)
              (with_heap (<[fresh (dom (heap w)) := ∅]> (heap w)) w)) = published w)
      by (unfold published; simpl; apply deref_make).
    rewrite Hsame. split; [done|]. intros bs k Heq. discriminate.
Qed.

(** [warm_cycle_keeps_builds] on a concrete input. *)
Lemma warm_cycle_keeps_builds_witness :
  (forall k, is_Some (published examples.warm_world !! k) ->
     is_Some (published (snd (refreshCache examples.upstream_warm examples.warm_world)) !! k)) /\
  (forall bs k, examples.upstream_warm 100 0 = Ok bs ->
     (forall b, b ∈ bs -> BuildNum b <> k) ->
     published (snd (refreshCache examples.upstream_warm examples.warm_world)) !! k
       = published examples.warm_world !! k).
Proof.
  apply (warm_cycle_keeps_builds examples.upstream_warm examples.warm_world).
  - reflexivity.
  - apply warm_world_reachable.
Defined.

(** X5. A warm cycle repeated against the same page does nothing: after
    one cycle the cursor is at or after every update time of the page,
    so a second cycle on that page counts no record and leaves the
    cache, the cursor and the published map as they are. *)
Theorem warm_cycle_idempotent cc w bs :
  0 < mostRecentBuild (cache (this w)) ->
  reachable w ->
  cc 100 0 = Ok bs ->
  exists w1 w2,
    refreshCache cc w = (RetNil, w1) /\
    refreshCache cc w1 = (RetNil, w2) /\
    this w2 = this w1 /\
    published w2 = published w1.
Proof.
  intros Hpos Hreach Hcc.
  assert (Hz : time.IsZero (mostRecentBuild (cache (this w))) = false)
    by (unfold time.IsZero; lia).
  destruct (Hreach Hz) as (l & o & Hl & Ho).
  destruct (refresh_warm_ok cc w bs l o Hz Hl Ho Hcc)
    as (w1 & Hrun1 & Hl1 & Ho1 & Hc1 & _).
  pose proof (foldl_step_le updateTime bump bump_eq (rev bs)
                (mostRecentBuild (cache (this w)))) as Hle.
  destruct (foldl_step_greatest updateTime bump bump_eq (rev bs)
              (mostRecentBuild (cache (this w)))) as [Hub _].
  rewrite <- Hc1 in Hle, Hub.
  assert (Hz1 : time.IsZero (mostRecentBuild (cache (this w1))) = false)
    by (unfold time.IsZero; lia).
  assert (Hnone : List.filter (newer (mostRecentBuild (cache (this w1)))) (rev bs) = []).
  { apply filter_nil_no_newer. intros b u Hb Hu. apply (Hub b u Hb Hu). }
  destruct (refresh_warm_ok cc w1 bs l _ Hz1 Hl1 Ho1 Hcc)
    as (w2 & Hrun2 & Hl2 & Ho2 & _ & _ & Hsame).
  exists w1, w2. split; [done|]. split; [done|]. split; [by apply Hsame|].
  unfold published. rewrite Hl1, Hl2. simpl. rewrite Ho2, Ho1, Hnone. done.
Qed.

(** [warm_cycle_idempotent] on a concrete input. *)
Lemma warm_cycle_idempotent_witness :
  exists w1 w2,
    refreshCache examples.upstream_warm examples.warm_world = (RetNil, w1) /\
    refreshCache examples.upstream_warm w1 = (RetNil, w2) /\
    this w2 = this w1 /\
    published w2 = published w1.
Proof.
  apply (warm_cycle_idempotent examples.upstream_warm examples.warm_world
           [examples.queued 4; examples.finished 3; examples.finished 2]).
  - simpl. lia.
  - apply warm_world_reachable.
  - reflexivity.
Defined.

(** X6. After a cold cycle that ran to its end the server is still
    cold exactly when no fetched build has a stop time after the zero
    time; the next cycle then fetches everything again. *)
Theorem cold_cycle_stays_cold cc w n :
  time.IsZero (mostRecentBuild (cache (this w))) = true ->
  cold_pages cc n ->
  time.IsZero (mostRecentBuild (cache (this (snd (refreshCache cc w))))) = true <->
  (forall b t, b ∈ fetched cc 0 n -> StopTime b = Some t -> t <= time.zero).
Proof.
  intros Hz Hn.
  destruct (refresh_cold_ok cc w n Hz Hn) as (w' & -> & _ & Hc & _).
  simpl. rewrite Hc.
  destruct (foldl_step_greatest StopTime advance advance_eq (fetched cc 0 n) time.zero)
    as [Hub Hatt].
  pose proof (foldl_step_le StopTime advance advance_eq (fetched cc 0 n) time.zero) as Hle.
  unfold time.IsZero, time.zero in *. split.
  - intros Hzero b t Hb Ht. pose proof (Hub b t Hb Ht). lia.
  - intros Hall. destruct Hatt as [->|(b & Hb & Ht)]; [done|].
    pose proof (Hall b _ Hb Ht). lia.
Qed.

(** [cold_cycle_stays_cold] on a concrete input. *)
Lemma cold_cycle_stays_cold_witness :
  time.IsZero (mostRecentBuild
     (cache (this (snd (refreshCache examples.upstream_running examples.world0))))) = true <->
  (forall b t, b ∈ fetched examples.upstream_running 0 1 -> StopTime b = Some t ->
     t <= time.zero).
Proof.
  apply (cold_cycle_stays_cold examples.upstream_running examples.world0 1).
  - reflexivity.
  - left. exists O. split; [done|]. split; [lia|]. split; [intros i Hi; lia|].
    eexists. split; [reflexivity|]. simpl. lia.
Defined.

(** X7. The polling loop of [Start], from a state a process can reach
    and whatever the upstream answers cycle after cycle, never ends in a
    panic; the cursor never moves back, the salt is kept, the state
    stays reachable and the published map keyed by build number, and
    each cycle adds at most one line to the log. *)
Theorem Start_loop_runs ccs : forall w log,
  reachable w ->
  keyed (published w) ->
  exists w' log',
    Start_loop ccs w log = Some (w', log') /\
    reachable w' /\
    keyed (published w') /\
    mostRecentBuild (cache (this w)) <= mostRecentBuild (cache (this w')) /\
    salt (this w') = salt (this w) /\
    (exists lines, log' = log ++ lines /\ (length lines <= length ccs)%nat).
Proof.
  induction ccs as [|cc ccs IH]; intros w log Hreach Hkeyed.
  - exists w, log. split; [done|]. split; [done|]. split; [done|].
    split; [lia|]. split; [done|]. exists []. by rewrite app_nil_r.
  - pose proof (refreshCache_returns cc w Hreach) as Hret.
    pose proof (refreshCache_reachable cc w Hreach) as Hreach'.
    pose proof (refreshCache_keeps_keyed cc w Hreach Hkeyed) as Hkeyed'.
    pose proof (refreshCache_cursor_le cc w) as Hle.
    pose proof (token_facts.refreshCache_salt cc w) as Hsalt.
    cbn [Start_loop].
    destruct (refreshCache cc w) as [r w1]. simpl in *.
    destruct r as [|e|]; [| |done].
    + destruct (IH w1 log Hreach' Hkeyed')
        as (w' & log' & Hrun & Hr & Hk & Hc & Hs & lines & Hlog & Hlen).
      exists w', log'. split; [done|]. split; [done|]. split; [done|].
      split; [lia|]. split; [congruence|]. exists lines. split; [done|]. simpl. lia.
    + destruct (IH w1 (log ++ [String.append "refresh failed: " e]) Hreach' Hkeyed')
        as (w' & log' & Hrun & Hr & Hk & Hc & Hs & lines & Hlog & Hlen).
      exists w', log'. split; [done|]. split; [done|]. split; [done|].
      split; [lia|]. split; [congruence|].
      exists (String.append "refresh failed: " e :: lines).
      split; [by rewrite Hlog, <- app_assoc|]. simpl. lia.
Qed.

(** [Start_loop_runs] on a concrete input. *)
Lemma Start_loop_runs_witness :
  exists w' log',
    Start_loop [examples.upstream_failing; examples.upstream240; examples.upstream_down]
      examples.world0 [] = Some (w', log') /\
    reachable w' /\
    keyed (published w') /\
    mostRecentBuild (cache (this examples.world0)) <= mostRecentBuild (cache (this w')) /\
    salt (this w') = salt (this examples.world0) /\
    (exists lines, log' = [] ++ lines /\ (length lines <= 3)%nat).
Proof.
  apply (Start_loop_runs
           [examples.upstream_failing; examples.upstream240; examples.upstream_down]
           examples.world0 []).
  - intros Hz. discriminate.
  - apply keyed_empty.
Defined.

(** X8. One cycle sends between one and twenty requests to the
    upstream, all with the limit 100, at the offsets 0, 100, 200, ... in
    this order; a warm cycle sends exactly one. *)
Theorem requests_per_cycle cc w :
  exists n, (1 <= n <= 20)%nat /\
    requests (snd (refreshCache cc w)) = requests w ++ offsets 0 n /\
    (time.IsZero (mostRecentBuild (cache (this w))) = false -> n = 1%nat).
Proof.
  destruct (time.IsZero (mostRecentBuild (cache (this w)))) eqn:Hz.
  - destruct (cold_cases cc) as [[n Hn]|(k & e & Hk & Hfull & Herr)].
    + destruct (refresh_cold_ok cc w n Hz Hn) as (w' & -> & _ & _ & Hr & _).
      exists n. split; [|by split].
      destruct Hn as [(k & -> & Hk & _)|[-> _]]; lia.
    + destruct (refresh_cold_err cc w k e Hz Hk Hfull Herr)
        as (w' & -> & _ & _ & Hr & _).
      exists (S k). split; [lia|]. by split.
  - exists 1%nat. split; [lia|]. split; [|done].
    rewrite (refreshCache_warm cc w Hz). cbv zeta.
    destruct (cc 100 0) as [bs|e]; [|done].
    destruct (wheap _); [|done]. by destruct (_ =? 0)%nat.
Qed.

(** X9. A cycle writes to one map only. A cold cycle fills the map it
    has just made and leaves every map that existed before as it was,
    the published one included, so a reader that holds the map
    published earlier keeps a stable view; a warm cycle writes in place
    to the published map and to no other. *)
Theorem refreshCache_writes_one_map cc w l0 o :
  heap w !! l0 = Some o ->
  time.IsZero (mostRecentBuild (cache (this w))) = true \/
    builds (cache (this w)) <> Some l0 ->
  heap (snd (refreshCache cc w)) !! l0 = Some o.
Proof.
  intros Ho Hcase.
  assert (Hfresh : fresh (dom (heap w)) <> l0).
  { intros <-. apply (is_fresh (dom (heap w))). apply elem_of_dom. by eexists. }
  assert (Hmade : <[fresh (dom (heap w)) := ∅]> (heap w) !! l0 = Some o)
    by (by rewrite lookup_insert_ne).
  destruct (time.IsZero (mostRecentBuild (cache (this w)))) eqn:Hz.
  - rewrite (refreshCache_cold cc w Hz).
    match goal with |- context [coldLoop cc 20 0 ?w0 ?lv0] =>
      pose proof (coldLoop_frame cc l0 20 0 w0 lv0) as Hframe;
      destruct (coldLoop cc 20 0 w0 lv0) as [[r w']|[w' lv']]
    end; simpl in *.
    + rewrite Hframe; [done|congruence].
    + destruct Hframe as [-> _]; [congruence|done].
  - destruct Hcase as [?|Hne]; [discriminate|].
    rewrite (refreshCache_warm cc w Hz). cbv zeta.
    destruct (cc 100 0) as [bs|e]; [|done].
    match goal with |- context [wheap ?a] => destruct (wheap a) as [h'|] eqn:Hrun end;
      [|done].
    unfold warmLoop in Hrun.
    destruct (warm_fold_frame _ _ l0 _ _ _ Hne Hrun) as (h & Hh & Hsame).
    simpl in Hh. injection Hh as <-.
    destruct (_ =? 0)%nat; simpl; by rewrite Hsame.
Qed.

(** [refreshCache_writes_one_map] on a concrete input. *)
Lemma refreshCache_writes_one_map_witness :
  heap (snd (refreshCache examples.upstream240 examples.idle_world)) !! 1%positive
    = Some (merge [examples.running 2; examples.running 1] ∅).
Proof.
  apply (refreshCache_writes_one_map examples.upstream240 examples.idle_world).
  - reflexivity.
  - left. reflexivity.
Defined.
End cache_extras.

(** * The token and the group checks: further properties *)
Module format_facts.
Import server spec.

Lemma word_bytes_range x : Forall (fun b => 0 <= b < 256) (md5.word_bytes x).
Proof.
  unfold md5.word_bytes.
  repeat apply Forall_cons_2; try apply Forall_nil_2; apply Z.mod_pos_bound; lia.
Qed.

Lemma Sum_range data : Forall (fun b => 0 <= b < 256) (md5.Sum data).
Proof.
  unfold md5.Sum. cbv zeta. rewrite !Forall_app.
  repeat split; apply word_bytes_range.
Qed.

Lemma hexdigit_in d : 0 <= d < 16 -> In (fmt.hexdigit d) hexdigits.
Proof.
  intros Hd. unfold fmt.hexdigit, hexdigits. apply nth_In.
  change (length (list_ascii_of_string "0123456789abcdef")) with 16%nat. lia.
Qed.

Lemma hex_digits bs :
  Forall (fun b => 0 <= b < 256) bs ->
  Forall (fun c => In c hexdigits) (list_ascii_of_string (fmt.hex bs)).
Proof.
  induction 1 as [|b bs Hb _ IH]; [constructor|].
  cbn [fmt.hex list_ascii_of_string].
  apply Forall_cons_2; [|apply Forall_cons_2; [|exact IH]]; apply hexdigit_in.
  - split; [apply Z.div_pos; lia|apply Z.div_lt_upper_bound; lia].
  - apply Z.mod_pos_bound. lia.
Qed.

(** The loop over the groups finds the name exactly when it is there
    as a string. *)
Lemma hasGroup_spec name groups :
  hasGroup name groups = true <-> PString name ∈ groups.
Proof.
  induction groups as [|g groups IH]; simpl.
  - split; [discriminate|]. intros H. by apply elem_of_nil in H.
  - rewrite elem_of_cons. destruct g as [s|l|].
    + destruct (String.eqb_spec s name) as [->|Hne].
      * split; [by left|done].
      * rewrite IH. split; [by right|]. intros [Heq|Hin]; [congruence|done].
    + rewrite IH. split; [by right|]. intros [Heq|Hin]; [discriminate|done].
    + rewrite IH. split; [by right|]. intros [Heq|Hin]; [discriminate|done].
Qed.

Lemma inGroup_spec name profile :
  inGroup name profile = true <->
  exists groups, profile !! "https://yolo.berty.io/groups"%string = Some (PList groups) /\
                 PString name ∈ groups.
Proof.
  unfold inGroup.
  destruct (profile !! "https://yolo.berty.io/groups"%string) as [[s|groups|]|].
  - split; [discriminate|]. intros (g & Heq & _). discriminate.
  - rewrite hasGroup_spec. split.
    + intros Hin. by exists groups.
    + intros (g & Heq & Hin). by injection Heq as <-.
  - split; [discriminate|]. intros (g & Heq & _). discriminate.
  - split; [discriminate|]. intros (g & Heq & _). discriminate.
Qed.
End format_facts.

Module gate_extras.
Import server spec token_facts format_facts.

(** X10. A token is made of 32 characters, each one of 0123456789abcdef:
    it holds no upper-case digit and no slash, so it fills exactly one
    segment of a path. *)
Theorem getHash_lower_hex s id :
  String.length (getHash s id) = 32%nat /\
  Forall (fun c => In c hexdigits) (list_ascii_of_string (getHash s id)) /\
  ~ In "/"%char (list_ascii_of_string (getHash s id)) /\
  ~ In "A"%char (list_ascii_of_string (getHash s id)).
Proof.
  assert (Hall : Forall (fun c => In c hexdigits) (list_ascii_of_string (getHash s id)))
    by (unfold getHash; apply hex_digits, Sum_range).
  split; [apply getHash_length|]. split; [exact Hall|].
  rewrite Forall_forall in Hall.
  split; intros Hin; apply list_elem_of_In, Hall in Hin;
    unfold hexdigits in Hin; simpl in Hin; intuition discriminate.
Qed.

(** X11. The token is not bound to the route: two requests on gated
    routes that carry the same token and the same rest of the path are
    both handed to their handler or both answered 401, whatever the
    routes are; a token issued for an IPA opens the disk image and the
    package under the same rest. *)
Theorem token_not_bound_to_route s c1 c2 next1 next2 :
  tokenPaths (echo.Path c1) = true ->
  tokenPaths (echo.Path c2) = true ->
  echo.Param c1 "token" = echo.Param c2 "token" ->
  echo.Param c1 "*" = echo.Param c2 "*" ->
  (tokenMiddleware s tokenPaths next1 c1 = next1 c1 /\
   tokenMiddleware s tokenPaths next2 c2 = next2 c2) \/
  (tokenMiddleware s tokenPaths next1 c1 = Some (echo.HTTPError 401 "Unauthorized") /\
   tokenMiddleware s tokenPaths next2 c2 = Some (echo.HTTPError 401 "Unauthorized")).
Proof.
  intros H1 H2 Htoken Hrest.
  rewrite !tokenMiddleware_cases, H1, H2, Htoken, Hrest.
  destruct (String.eqb _ _); [by left|by right].
Qed.

(** [token_not_bound_to_route] on a concrete input. *)
Lemma token_not_bound_to_route_witness :
  (tokenMiddleware examples.server1 tokenPaths examples.serve
     (examples.ipa_request "e1aa4c1b8e8ac00509c81e168e3e3373" "42/app.ipa")
   = examples.serve (examples.ipa_request "e1aa4c1b8e8ac00509c81e168e3e3373" "42/app.ipa") /\
   tokenMiddleware examples.server1 tokenPaths examples.serve
     (examples.dmg_request "e1aa4c1b8e8ac00509c81e168e3e3373" "42/app.ipa")
   = examples.serve (examples.dmg_request "e1aa4c1b8e8ac00509c81e168e3e3373" "42/app.ipa")) \/
  (tokenMiddleware examples.server1 tokenPaths examples.serve
     (examples.ipa_request "e1aa4c1b8e8ac00509c81e168e3e3373" "42/app.ipa")
   = Some (echo.HTTPError 401 "Unauthorized") /\
   tokenMiddleware examples.server1 tokenPaths examples.serve
     (examples.dmg_request "e1aa4c1b8e8ac00509c81e168e3e3373" "42/app.ipa")
   = Some (echo.HTTPError 401 "Unauthorized")).
Proof.
  apply (token_not_bound_to_route examples.server1
           (examples.ipa_request "e1aa4c1b8e8ac00509c81e168e3e3373" "42/app.ipa")
           (examples.dmg_request "e1aa4c1b8e8ac00509c81e168e3e3373" "42/app.ipa")
           examples.serve examples.serve); reflexivity.
Defined.

(** X12. The two group checks of [NewServer]: the pages under release
    are open to a profile exactly when its entry
    https://yolo.berty.io/groups is a list that holds the string yolo,
    the pages under /release/staff exactly when it holds the string
    staff; a missing entry, an entry that is not a list and a list
    element that is not a string never open anything, and neither group
    stands for the other. *)
Theorem group_checks profile :
  (releaseAllowed profile = true <->
     exists groups, profile !! "https://yolo.berty.io/groups"%string = Some (PList groups) /\
                    PString "yolo" ∈ groups) /\
  (staffAllowed profile = true <->
     exists groups, profile !! "https://yolo.berty.io/groups"%string = Some (PList groups) /\
                    PString "staff" ∈ groups) /\
  (profile !! "https://yolo.berty.io/groups"%string = None ->
     releaseAllowed profile = false /\ staffAllowed profile = false) /\
  (forall s, profile !! "https://yolo.berty.io/groups"%string = Some (PString s) ->
     releaseAllowed profile = false /\ staffAllowed profile = false) /\
  (forall groups,
     profile !! "https://yolo.berty.io/groups"%string = Some (PList groups) ->
     Forall (fun g => forall s, g <> PString s) groups ->
     releaseAllowed profile = false /\ staffAllowed profile = false).
Proof.
  split; [apply inGroup_spec|]. split; [apply inGroup_spec|].
  unfold releaseAllowed, staffAllowed, inGroup.
  split; [by intros ->|]. split; [by intros s ->|].
  intros groups -> Hnone.
  assert (Hno : forall name, hasGroup name groups = false).
  { intros name. induction Hnone as [|g groups Hg _ IH]; [done|].
    simpl. destruct g as [s| |]; [by destruct (Hg s)|exact IH|exact IH]. }
  by rewrite !Hno.
Qed.
End gate_extras.

(** * The service: further properties *)
Module service_facts.
Import yolopb yolosvc query_facts.

Lemma cleanupBuilds_ids X salt K : forall bs h h' bs',
  cleanupBuilds X salt K h bs = Ok (h', bs') ->
  map BuildID bs' = map BuildID bs /\ (K <= 0 -> bs' = bs).
Proof.
  induction bs as [|b bs IH]; intros h h' bs' Hrun; simpl in Hrun.
  - by injection Hrun as <- <-.
  - destruct (cleanupBuild X salt K h b) as [[h1 b1]|e] eqn:Hone; [|discriminate].
    destruct (cleanupBuilds X salt K h1 bs) as [[h2 rest]|e] eqn:Hrest; [|discriminate].
    injection Hrun as <- <-.
    destruct (cleanupBuild_spec _ _ _ _ _ _ _ Hone) as (_ & Hid & _ & Hsame).
    destruct (IH _ _ _ Hrest) as [Hids Hsames].
    split; [simpl; by rewrite Hid, Hids|].
    intros HK. by rewrite (Hsame HK), (Hsames HK).
Qed.

Lemma cleanupBuilds_error X salt K : forall bs h e,
  cleanupBuilds X salt K h bs = Err e -> e = "sign URLs"%string.
Proof.
  induction bs as [|b bs IH]; intros h e Hrun; simpl in Hrun; [discriminate|].
  destruct (cleanupBuild X salt K h b) as [[h1 b1]|e1] eqn:Hone.
  - destruct (cleanupBuilds X salt K h1 bs) as [[h2 rest]|e2] eqn:Hrest; [discriminate|].
    injection Hrun as <-. by eapply IH.
  - injection Hrun as <-. unfold cleanupBuild in Hone.
    destruct (Build_Cleanup X h b) as [h1 build].
    destruct (Build_AddSignedURLs X salt h1 _); [discriminate|]. by injection Hone as <-.
Qed.

Lemma cleanupBuilds_signed X salt K : forall bs h,
  (forall h b, exists h', Build_AddSignedURLs X salt h b = Ok h') ->
  exists r, cleanupBuilds X salt K h bs = Ok r.
Proof.
  intros bs h Hsign. revert h.
  induction bs as [|b bs IH]; intros h; simpl; [by eexists|].
  unfold cleanupBuild. destruct (Build_Cleanup X h b) as [h1 build].
  match goal with |- context [Build_AddSignedURLs X salt h1 ?b1] =>
    destruct (Hsign h1 b1) as [h2 ->] end.
  destruct (IH h2) as [[h3 rest] ->]. by eexists.
Qed.

Lemma until_slash_no_slash l : ~ In path.slash (path.until_slash l).
Proof.
  induction l as [|c l IH]; simpl; [tauto|].
  destruct (Ascii.eqb_spec c path.slash) as [->|Hne]; simpl; [tauto|].
  intros [Heq|Hin]; [congruence|tauto].
Qed.

(** [path.Base] never returns the empty string, and its result holds a
    slash only when it is the path of the root. *)
Lemma Base_spec p :
  path.Base p <> EmptyString /\
  (path.Base p = "/"%string \/ ~ In path.slash (list_ascii_of_string (path.Base p))).
Proof.
  unfold path.Base. destruct (String.eqb p EmptyString).
  - split; [discriminate|]. right. simpl. unfold path.slash.
    intros [H|[]]. discriminate.
  - pose proof (until_slash_no_slash
                  (path.strip_slashes (rev (list_ascii_of_string p)))) as Hno.
    destruct (rev (path.until_slash _)) as [|c last] eqn:Hlast.
    + split; [discriminate|by left].
    + split; [simpl; discriminate|]. right.
      rewrite list_ascii_of_string_of_list_ascii, <- Hlast.
      intros Hin. apply Hno. by apply in_rev.
Qed.

(** After [http.Error] the only content type of the response is plain
    text. *)
Lemma Error_headers msg code w :
  In ("Content-Type", "text/plain; charset=utf-8")%string
     (http.Header (http.Error msg code w)) /\
  ~ In ("Content-Type", "application/x-plist")%string
       (http.Header (http.Error msg code w)).
Proof.
  unfold http.Error, http.Write_, http.WriteHeader, http.Header_Set. simpl.
  rewrite !in_app_iff, !filter_In, !in_app_iff, !filter_In. simpl. split.
  - left. split; [|done]. right. by left.
  - intros [[[[_ Hk]|[Heq|[]]] _]|[Heq|[]]]; discriminate.
Qed.
End service_facts.

Module service_extras.
Import yolopb yolosvc query_facts service_facts.

(** X13. [BuildList] returns two errors only: a failure of the store
    comes back as load builds: followed by its message; a failure of
    the signer comes back as sign URLs, its own message dropped. With a
    store that answers and a signer that never fails the call
    succeeds. *)
Theorem BuildList_errors X svc K :
  (forall e0, LoadIteratorToDepth (db svc) (buildsPath K) 1 = Err e0 ->
     BuildList X svc K = Err (String.append "load builds: " e0)) /\
  (forall e, BuildList X svc K = Err e ->
     (exists e0, LoadIteratorToDepth (db svc) (buildsPath K) 1 = Err e0 /\
                 e = String.append "load builds: " e0) \/
     (exists h bs, LoadIteratorToDepth (db svc) (buildsPath K) 1 = Ok (h, bs) /\
                   bs <> [] /\ e = "sign URLs"%string)) /\
  (forall h bs, LoadIteratorToDepth (db svc) (buildsPath K) 1 = Ok (h, bs) ->
     (forall h b, exists h', Build_AddSignedURLs X (authSalt svc) h b = Ok h') ->
     exists r, BuildList X svc K = Ok r).
Proof.
  unfold BuildList. split; [|split].
  - by intros e0 ->.
  - intros e. destruct (LoadIteratorToDepth (db svc) (buildsPath K) 1) as [[h bs]|e0].
    + destruct (cleanupBuilds X (authSalt svc) K h bs) as [[h' bs']|e1] eqn:Hrun;
        [discriminate|].
      intros Heq. injection Heq as <-. right. exists h, bs. split; [done|].
      split; [by intros ->|]. by eapply cleanupBuilds_error.
    + intros Heq. injection Heq as <-. left. by exists e0.
  - intros h bs -> Hsign.
    destruct (cleanupBuilds_signed X (authSalt svc) K bs h Hsign) as [[h' bs'] ->].
    by eexists.
Qed.

(** X14. [BuildList] neither drops nor invents a build: with a sort
    that permutes its input, the builds of the response have the
    identifiers and the creation times of the builds loaded, one for
    one, also the builds left without artifact by the filter; without a
    filter (a kind of zero or less) they are the loaded builds
    themselves, since [Cleanup] works on a copy. *)
Theorem BuildList_keeps_builds X svc K h bs :
  (forall l, Permutation l (sort_Slice X less l)) ->
  LoadIteratorToDepth (db svc) (buildsPath K) 1 = Ok (h, bs) ->
  match BuildList X svc K with
  | Ok (_, out) =>
      Permutation (map BuildID bs) (map BuildID out) /\
      Permutation (map CreatedAt bs) (map CreatedAt out) /\
      length out = length bs /\
      (K <= 0 -> Permutation bs out)
  | Err e => e = "sign URLs"%string
  end.
Proof.
  intros Hperm Hload. unfold BuildList. rewrite Hload.
  destruct (cleanupBuilds X (authSalt svc) K h bs) as [[h1 bs']|e] eqn:Hrun;
    [|by eapply cleanupBuilds_error].
  destruct (cleanupBuilds_ids _ _ _ _ _ _ _ Hrun) as [Hids Hsame].
  destruct (cleanupBuilds_spec _ _ _ _ _ _ _ Hrun) as [Htimes _].
  pose proof (Hperm bs') as Hp.
  split; [rewrite <- Hids; by apply Permutation_map|].
  split; [rewrite <- Htimes; by apply Permutation_map|].
  split.
  - rewrite <- (Permutation_length Hp).
    rewrite <- (length_map BuildID bs'), Hids. apply length_map.
  - intros HK. by rewrite <- (Hsame HK) at 1.
Qed.

(** [BuildList_keeps_builds] on a concrete input. *)
Lemma BuildList_keeps_builds_witness :
  match BuildList examples.extern0 examples.service0 0 with
  | Ok (_, out) =>
      Permutation
        (map BuildID [examples.build_undated; examples.build_old; examples.build_new])
        (map BuildID out) /\
      Permutation
        (map CreatedAt [examples.build_undated; examples.build_old; examples.build_new])
        (map CreatedAt out) /\
      length out
        = length [examples.build_undated; examples.build_old; examples.build_new] /\
      (0 <= 0 ->
       Permutation [examples.build_undated; examples.build_old; examples.build_new] out)
  | Err e => e = "sign URLs"%string
  end.
Proof.
  apply (BuildList_keeps_builds examples.extern0 examples.service0 0
           examples.artifact_at
           [examples.build_undated; examples.build_old; examples.build_new]).
  - intros l. apply sort_facts.insertionSort_meets_contract, less_transitive.
  - reflexivity.
Defined.

(** X15. The headers [ArtifactDownloader] adds before the download:
    first Content-Disposition with the last element of the local path as
    file name, which is never empty and holds no slash unless it is the
    root path; then Content-Length only for a positive size and
    Content-Type only for a non-empty MIME type; status and body are not
    touched. When the artifact cannot be loaded no Content-Disposition
    is added at all. *)
Theorem download_headers X svc id a w :
  (exists extra,
     http.Header (downloadHeaders a w)
       = http.Header w
         ++ ("Content-Disposition"%string,
             String.append "inline; filename=" (path.Base (LocalPath a))) :: extra /\
     (forall k v, In (k, v) extra ->
        (k = "Content-Length"%string /\ 0 < FileSize a /\ v = pretty (FileSize a)) \/
        (k = "Content-Type"%string /\ v = MimeType a /\ v <> EmptyString)) /\
     (0 < FileSize a -> In ("Content-Length"%string, pretty (FileSize a)) extra) /\
     (MimeType a <> EmptyString -> In ("Content-Type"%string, MimeType a) extra)) /\
  path.Base (LocalPath a) <> EmptyString /\
  (path.Base (LocalPath a) = "/"%string \/
   ~ In path.slash (list_ascii_of_string (path.Base (LocalPath a)))) /\
  http.Status (downloadHeaders a w) = http.Status w /\
  http.Body (downloadHeaders a w) = http.Body w /\
  (forall e v, LoadPathTo (db svc) (artifactPath id) = Err e ->
     In ("Content-Disposition"%string, v) (http.Header (ArtifactDownloader X svc id w)) ->
     In ("Content-Disposition"%string, v) (http.Header w)).
Proof.
  destruct (Base_spec (LocalPath a)) as [Hne Hslash].
  split; [|split; [exact Hne|split; [exact Hslash|]]].
  - unfold downloadHeaders. cbv zeta.
    destruct (Z.ltb_spec 0 (FileSize a)) as [Hsize|Hsize];
      destruct (String.eqb_spec (MimeType a) EmptyString) as [Hmime|Hmime]; simpl.
    + eexists [_]. rewrite <- app_assoc. split; [reflexivity|].
      split; [|split; [by left|done]].
      intros k v [Heq|[]]. injection Heq as <- <-. by left.
    + eexists [_; _]. rewrite <- !app_assoc. split; [reflexivity|].
      split; [|split; [by left|by right; left]].
      intros k v [Heq|[Heq|[]]]; injection Heq as <- <-; [by left|by right].
    + exists []. split; [reflexivity|]. split; [by intros k v []|]. split; [lia|done].
    + eexists [_]. rewrite <- app_assoc. split; [reflexivity|].
      split; [|split; [lia|by left]].
      intros k v [Heq|[]]. injection Heq as <- <-. by right.
  - unfold downloadHeaders. cbv zeta.
    split; [|split].
    + by destruct (0 <? FileSize a), (negb _).
    + by destruct (0 <? FileSize a), (negb _).
    + intros e v Hload. unfold ArtifactDownloader. rewrite Hload.
      unfold http.Error, http.Write_, http.WriteHeader, http.Header_Set. simpl.
      rewrite !in_app_iff, !filter_In, in_app_iff, filter_In. simpl.
      intros [[[[Hin _]|[Heq|[]]] _]|[Heq|[]]]; [done|discriminate|discriminate].
Qed.

(** X16. [PlistGenerator] on a fresh response answers 200 or 500, and
    200 exactly when the three steps succeed: the artifact loads, the
    link is signed, the manifest is generated from the signed link. The
    signature is taken over the path /api/artifact-dl/ followed by the
    identifier, with the method GET, an empty body and the salt of the
    service; scheme and host are put in front of the signed link
    afterwards, the scheme being the header X-Forwarded-Proto, or http
    without it. On success the manifest is the body, typed
    application/x-plist, whatever the loaded artifact holds. The first
    step that fails decides the answer: 500, with its message after
    err: as plain text and no manifest type. *)
Theorem PlistGenerator_reply P svc id r w :
  http.Status w = None ->
  (http.Status (PlistGenerator P svc id r w) = Some 200 \/
   http.Status (PlistGenerator P svc id r w) = Some 500) /\
  (http.Status (PlistGenerator P svc id r w) = Some 200 <->
   exists a signed b,
     LoadPathTo (db svc) (artifactPath id) = Ok a /\
     GetSignedURL P "GET" (String.append "/api/artifact-dl/" id) EmptyString (authSalt svc)
       = Ok signed /\
     plistgen_Release P "tech.berty.ios" "v0.0.1" "YOLO"
       (String.append
          (String.append
             (if String.eqb (XForwardedProto r) EmptyString then "http"
              else XForwardedProto r)
             (String.append "://" (Host r)))
          signed) = Ok b) /\
  (forall a signed b,
     LoadPathTo (db svc) (artifactPath id) = Ok a ->
     GetSignedURL P "GET" (String.append "/api/artifact-dl/" id) EmptyString (authSalt svc)
       = Ok signed ->
     plistgen_Release P "tech.berty.ios" "v0.0.1" "YOLO"
       (String.append
          (String.append
             (if String.eqb (XForwardedProto r) EmptyString then "http"
              else XForwardedProto r)
             (String.append "://" (Host r)))
          signed) = Ok b ->
     http.Status (PlistGenerator P svc id r w) = Some 200 /\
     http.Body (PlistGenerator P svc id r w) = String.append (http.Body w) b /\
     http.Header (PlistGenerator P svc id r w)
       = http.Header w ++ [("Content-Type", "application/x-plist")]%string) /\
  (forall e,
     LoadPathTo (db svc) (artifactPath id) = Err e \/
     (exists a,
        LoadPathTo (db svc) (artifactPath id) = Ok a /\
        GetSignedURL P "GET" (String.append "/api/artifact-dl/" id) EmptyString
          (authSalt svc) = Err e) \/
     (exists a signed,
        LoadPathTo (db svc) (artifactPath id) = Ok a /\
        GetSignedURL P "GET" (String.append "/api/artifact-dl/" id) EmptyString
          (authSalt svc) = Ok signed /\
        plistgen_Release P "tech.berty.ios" "v0.0.1" "YOLO"
          (String.append
             (String.append
                (if String.eqb (XForwardedProto r) EmptyString then "http"
                 else XForwardedProto r)
                (String.append "://" (Host r)))
             signed) = Err e) ->
     PlistGenerator P svc id r w
       = http.Error (String.append "err: " e) http.StatusInternalServerError w /\
     http.Status (PlistGenerator P svc id r w) = Some 500 /\
     http.Body (PlistGenerator P svc id r w)
       = String.append (http.Body w)
           (String.append (String.append "err: " e) (String "010"%char EmptyString)) /\
     In ("Content-Type", "text/plain; charset=utf-8")%string
        (http.Header (PlistGenerator P svc id r w)) /\
     ~ In ("Content-Type", "application/x-plist")%string
          (http.Header (PlistGenerator P svc id r w))).
Proof.
  intros Hs.
  assert (Herr : forall e,
    http.Status (http.Error (String.append "err: " e) http.StatusInternalServerError w)
      = Some 500) by (intros e; simpl; by rewrite Hs).
  unfold PlistGenerator. cbv zeta.
  destruct (LoadPathTo (db svc) (artifactPath id)) as [a|e0] eqn:Hload.
  - destruct (GetSignedURL P "GET" (String.append "/api/artifact-dl/" id) EmptyString
                (authSalt svc)) as [signed|e0] eqn:Hsign.
    + destruct (plistgen_Release P "tech.berty.ios" "v0.0.1" "YOLO" _) as [b|e0] eqn:Hgen.
      * assert (Hok : http.Status
                        (http.Write_ b
                           (http.Header_Add "Content-Type" "application/x-plist" w))
                      = Some 200) by (simpl; by rewrite Hs).
        split; [by left|]. split; [|split].
        -- split; [intros _; by exists a, signed, b|done].
        -- intros a' signed' b' _ Hs' Hg'. injection Hs' as <-.
           rewrite Hgen in Hg'. injection Hg' as <-. by split.
        -- intros e [Hl|[(a' & _ & Hs')|(a' & signed' & _ & Hs' & Hg')]];
             [discriminate|discriminate|].
           injection Hs' as <-. rewrite Hgen in Hg'. discriminate.
      * split; [right; apply Herr|]. split; [|split].
        -- rewrite Herr. split; [discriminate|].
           intros (a' & signed' & b' & _ & Hs' & Hg'). injection Hs' as <-.
           rewrite Hgen in Hg'. discriminate.
        -- intros a' signed' b' _ Hs' Hg'. injection Hs' as <-.
           rewrite Hgen in Hg'. discriminate.
        -- intros e [Hl|[(a' & _ & Hs')|(a' & signed' & _ & Hs' & Hg')]];
             [discriminate|discriminate|].
           injection Hs' as <-. rewrite Hgen in Hg'. injection Hg' as <-.
           split; [done|]. split; [apply Herr|]. split; [done|]. apply Error_headers.
    + split; [right; apply Herr|]. split; [|split].
      * rewrite Herr. split; [discriminate|].
        intros (a' & signed' & b' & _ & Hs' & _). discriminate.
      * intros a' signed' b' _ Hs'. discriminate.
      * intros e [Hl|[(a' & _ & Hs')|(a' & signed' & _ & Hs' & _)]];
          [discriminate| |discriminate].
        injection Hs' as <-.
        split; [done|]. split; [apply Herr|]. split; [done|]. apply Error_headers.
  - split; [right; apply Herr|]. split; [|split].
    + rewrite Herr. split; [discriminate|].
      intros (a' & signed' & b' & Hl & _). discriminate.
    + intros a' signed' b' Hl. discriminate.
    + intros e [Hl|[(a' & Hl & _)|(a' & signed' & Hl & _)]];
        [|discriminate|discriminate].
      injection Hl as <-.
      split; [done|]. split; [apply Herr|]. split; [done|]. apply Error_headers.
Qed.

(** [PlistGenerator_reply] on the artifact of [store0], asked for over
    https: the manifest links to the signed path behind scheme and
    host. *)
Lemma PlistGenerator_reply_witness :
  http.Status (PlistGenerator examples.plist_extern0 examples.service0 "artifact-0"
                 examples.request0 examples.writer0) = Some 200 /\
  http.Body (PlistGenerator examples.plist_extern0 examples.service0 "artifact-0"
               examples.request0 examples.writer0)
    = String.append (http.Body examples.writer0)
        "<plist>https://yolo.example/api/artifact-dl/artifact-0?signature=secret</plist>" /\
  http.Header (PlistGenerator examples.plist_extern0 examples.service0 "artifact-0"
                 examples.request0 examples.writer0)
    = http.Header examples.writer0 ++ [("Content-Type", "application/x-plist")]%string.
Proof.
  destruct (PlistGenerator_reply examples.plist_extern0 examples.service0 "artifact-0"
              examples.request0 examples.writer0 eq_refl) as (_ & _ & Hok & _).
  apply (Hok (examples.artifact_at O)
             "/api/artifact-dl/artifact-0?signature=secret"%string); reflexivity.
Defined.
End service_extras.
